(** * GithubAppHandler: event classification, handler registry and dispatch

    A shallow embedding of [githubapp/events/event.py],
    [githubapp/events/check_suite.py], [githubapp/events/status.py],
    [githubapp/webhook_handler.py] and
    [githubapp/LazyCompletableGithubObject.py], with the properties of the
    classification / registration / dispatch engine proved about it.

    Conventions of the embedding
    - a Python [str] is a [string]; keys are ASCII (HTTP field names and the
      keys of GitHub's JSON payloads are);
    - a Python [dict] given as an argument is the list of its [items()], in
      insertion order; a [dict] that the code builds is a [gmap];
    - code that can raise returns a [result]; code that also mutates
      process-wide state ([handlers], the class attributes of [Event]) runs in
      the state-and-exception monad [M], where an exception keeps the state
      reached so far, as in Python;
    - the built-ins, the process environment and the client library are not
      code of the package: what they return or raise is the parameter
      [externals] of the definitions that call them, and the theorems hold
      for every value of it. *)

From Stdlib Require Import ZArith Ascii String List Bool Lia.
From stdpp Require Import base option strings list gmap fin_maps.

Local Open Scope string_scope.
Local Open Scope list_scope.
Local Open Scope stdpp_scope.

(** ** Python string operations used by the code *)

Module PyStr.

(** [str.lower()] on ASCII. *)
Definition lower_char (c : ascii) : ascii :=
  let n := nat_of_ascii c in
  if (65 <=? n)%nat && (n <=? 90)%nat then ascii_of_nat (n + 32) else c.

Fixpoint map_chars (f : ascii → ascii) (s : string) : string :=
  match s with
  | EmptyString => EmptyString
  | String c s' => String (f c) (map_chars f s')
  end.

Definition lower (s : string) : string := map_chars lower_char s.

(** [s.startswith(p)]. *)
Definition startswith (s p : string) : bool := String.prefix p s.

(** [s.replace(old, new)] for a non-empty [old]: the occurrences of [old]
    are found from left to right and do not overlap.  [skip] counts the
    characters of an occurrence that are still to be dropped. *)
Fixpoint replace_from (old new : string) (skip : nat) (s : string) : string :=
  match s with
  | EmptyString => EmptyString
  | String c s' =>
      match skip with
      | S k => replace_from old new k s'
      | O =>
          if String.prefix old s
          then String.append new (replace_from old new (pred (String.length old)) s')
          else String c (replace_from old new 0 s')
      end
  end.

Definition replace (s old new : string) : string := replace_from old new 0 s.

(** [old in s]. *)
Fixpoint contains (s old : string) : bool :=
  match s with
  | EmptyString => String.prefix old EmptyString
  | String _ s' => String.prefix old s || contains s' old
  end.

(** [re.sub(r"[- ]", "_", s)]. *)
Definition sub_separator (c : ascii) : ascii :=
  if Ascii.eqb c "-" || Ascii.eqb c " " then "_"%char else c.

Definition re_sub_separators (s : string) : string := map_chars sub_separator s.

(** [sep.join(l)]. *)
Fixpoint join (sep : string) (l : list string) : string :=
  match l with
  | [] => EmptyString
  | [x] => x
  | x :: rest => String.append x (String.append sep (join sep rest))
  end.

(** The spec's "strip the prefix": remove [p] when [s] starts with it. *)
Fixpoint drop (n : nat) (s : string) : string :=
  match n, s with
  | S k, String _ s' => drop k s'
  | _, _ => s
  end.




End PyStr.

(** ** Payload values

    The decoded JSON of a delivery; header values are [JStr]. *)

#[warnings="-register-all"]
Inductive json : Type :=
| JNull
| JBool (b : bool)
| JInt (n : Z)
| JStr (s : string)
| JArr (items : list json)
| JObj (members : list (string * json)).

(** A [dict] argument: its items in insertion order. *)
Abbreviation dict := (list (string * json)).

Fixpoint dict_get (d : dict) (k : string) : option json :=
  match d with
  | [] => None
  | (k', v) :: rest => if String.eqb k' k then Some v else dict_get rest k
  end.

Definition dict_keys (d : dict) : list string := map fst d.

(** ** Exceptions and results *)

Inductive exn : Type :=
| AttributeError (msg : string)
| KeyError (key : string)
| TypeError (msg : string)
| ValueError (msg : string)
| OSError (msg : string)
| SignatureError (message : string)
| AssertionError
| UserError (msg : string).

Inductive result (A : Type) : Type :=
| Ok (a : A)
| Raise (e : exn).
Arguments Ok {A} a.
Arguments Raise {A} e.

(** ** [githubapp/events/event.py]: normalization *)

(** The three assignments to [attr] in the loop of [normalize_dicts]. *)
Definition normalize_key (attr : string) : string :=
  let attr := PyStr.lower attr in
  let attr := PyStr.replace attr "x-github-" "" in
  PyStr.re_sub_separators attr.

Definition normalize_items (union_dict : gmap string json) (d : dict) : gmap string json :=
  foldl (λ u '(attr, value), <[normalize_key attr := value]> u) union_dict d.

Definition normalize_dicts (dicts : list dict) : gmap string json :=
  foldl normalize_items ∅ dicts.


(** ** The state-and-exception monad *)

Definition M (S A : Type) : Type := S → result A * S.

#[global] Instance result_ret : MRet result := λ _ a, Ok a.
#[global] Instance result_bind : MBind result :=
  λ _ _ f r, match r with Ok a => f a | Raise e => Raise e end.

#[global] Instance M_ret {S} : MRet (M S) := λ _ a s, (Ok a, s).
#[global] Instance M_bind {S} : MBind (M S) :=
  λ _ _ f m s, match m s with
               | (Ok a, s') => f a s'
               | (Raise e, s') => (Raise e, s')
               end.

Definition raise {S A} (e : exn) : M S A := λ s, (Raise e, s).
Definition lift {S A} (r : result A) : M S A := λ s, (r, s).
Definition gets {S A} (f : S → A) : M S A := λ s, (Ok (f s), s).
Definition modify {S} (f : S → S) : M S unit := λ s, (Ok tt, f s).

(** [for x in l: body(x)] *)
Section ForEach.
Context {S A : Type} (body : A → M S unit).

Fixpoint for_each (l : list A) : M S unit :=
  match l with
  | [] => mret tt
  | x :: l' => body x;; for_each l'
  end.
End ForEach.

(** ** [githubapp/events/event.py]: the hierarchy and the classifier *)

(** What an initializer does, after [super().__init__], with a
    parameter it has bound. *)
Inductive usage : Type :=
| Assign                       (* self.name = name *)
| Parse (clazz : string)       (* self.name = self._parse_object(clazz, name) *)
| ParseEach (clazz : string).  (* self.name = [self._parse_object(clazz, x) for x in name] *)

(** An event class.  [event_identifier] is the attribute as attribute lookup
    resolves it on the class ([None] is the value declared by [Event]
    itself; the dictionaries of the package map a key to a string);
    [init_fields] are the payload fields bound by the [__init__] that the
    class defines or inherits below [Event.__init__], each with the statement
    that assigns it, in the order of the parameters, which in the package is
    also the order of the statements; [subclasses] is [__subclasses__()], in
    definition order.  [cls_name] stands for the identity of the class
    object: distinct classes have distinct names. *)
#[warnings="-register-all"]
Inductive event_class : Type :=
  EventClass {
    cls_name : string;
    event_identifier : option (list (string * string));
    init_fields : list (string * usage);
    subclasses : list event_class
  }.

(** The names of the parameters of that [__init__]. *)
Definition init_params (cls : event_class) : list string := map fst (init_fields cls).

(** Induction over a hierarchy: a property of a class may use the property
    of each of its subclasses. *)
Fixpoint event_class_induction (P : event_class → Prop)
    (step : ∀ name identifier params subs,
        Forall P subs → P (EventClass name identifier params subs))
    (cls : event_class) : P cls :=
  match cls with
  | EventClass name identifier params subs =>
      step name identifier params subs
        ((fix all (l : list event_class) : Forall P l :=
            match l with
            | [] => @List.Forall_nil _ P
            | c :: l' => @List.Forall_cons _ P c l' (event_class_induction P step c) (all l')
            end) subs)
  end.

(** [cls.match(data)]: [attr in data and value == data[attr]] for every item
    of the identifier; a string equals a payload value only when that value
    is the same string.  On a class that inherits [None] from [Event],
    [.items()] raises. *)
Definition match_ (cls : event_class) (data : gmap string json) : result bool :=
  match event_identifier cls with
  | None => Raise (AttributeError "'NoneType' object has no attribute 'items'")
  | Some identifier =>
      Ok (forallb
            (λ '(attr, value),
               match data !! attr with
               | Some (JStr s) => String.eqb value s
               | _ => false
               end)
            identifier)
  end.

(** [cls.get_event(headers, body)] *)
Fixpoint get_event (cls : event_class) (headers body : dict) : result event_class :=
  let union_dict := normalize_dicts [headers; body] in
  (fix for_event (events : list event_class) : result event_class :=
     match events with
     | [] => Ok cls
     | event :: events' =>
         match match_ event union_dict with
         | Raise e => Raise e
         | Ok true => get_event event headers body
         | Ok false => for_event events'
         end
     end) (subclasses cls).

(** [Event.fix_attributes(attributes)]: the dictionary after the call, or the
    exception of [.startswith] / [.replace] on a value that is not a [str]. *)
Definition fix_attributes (attributes : gmap string json) : result (gmap string json) :=
  match default (JStr "") (attributes !! "url") with
  | JStr url =>
      if PyStr.startswith url "https://github"
      then Ok (<["url" := JStr (PyStr.replace url "https://github.com"
                                   "https://api.github.com/repos")]> attributes)
      else Ok attributes
  | _ => Raise (AttributeError "object has no attribute 'startswith'")
  end.

(** ** Objects of the client library and of the application *)

Inductive auth : Type :=
| AppUserAuth (client_id client_secret token : option string)
              (expires_at : option Z) (refresh_token : option string)
              (refresh_expires_at : option Z)
| Token (token : string).

(** [Requester(auth=auth, ...)] and [Github(auth=auth)]; their other
    arguments are the library's constants. *)
Record Requester : Type := mkRequester { requester_auth : auth }.
Record Github : Type := mkGithub { github_auth : auth }.

(** What [clazz(requester=..., headers={}, attributes=value, completed=...)]
    keeps. *)
Record github_object : Type := mkObject {
  obj_type : string;
  obj_requester : Requester;
  obj_attributes : json;
  obj_completed : bool
}.

(** The value of an instance attribute that a subclass initializer assigns. *)
Inductive attribute : Type :=
| Value (v : json)
| Object (o : github_object)
| Objects (os : list github_object).

(** An [Event] instance; [oid] is the identity of the object (the rank of its
    allocation) and [fields] holds what the subclass initializer assigns. *)
Record event : Type := mkEvent {
  oid : nat;
  event_type : string;
  gh : Github;
  requester : Requester;
  repository : option github_object;
  sender : github_object;
  fields : list (string * attribute)
}.

(** A handler: its [__qualname__], the names in
    [inspect.signature(method).parameters], and how a call of it on an event
    instance ends (it returns or it raises).  Handlers are application code:
    what else they do is outside this model. *)
Record handler : Type := mkHandler {
  qualname : string;
  parameters : list string;
  call : event → result unit
}.

(** What the process does that an observer outside can see. *)
Inductive effect : Type :=
| GetAccessToken (app_id installation_id : option Z)
| New (cls : string) (obj : nat)
| Call (h : handler) (obj : nat)
| Initialize.

(** The process-wide state: [webhook_handler.handlers], the class attributes
    of [Event], the allocation counter, and the effects so far. *)
Record world : Type := mkWorld {
  handlers : gmap string (list handler);
  Event_attrs : gmap string json;
  allocated : nat;
  trace : list effect
}.

(** Built-ins, the process environment and the client library: [int] on a
    string, [os.environ.get], the content of [private-key.pem],
    [GithubIntegration(auth=AppAuth(app_id, key)).get_access_token(id).token],
    the checks that the constructor [AppUserAuth(...)] makes on its
    arguments, [dateutil.parser.parse], the instance attributes that
    [Requester.__init__] stores, the attributes of the class [Requester],
    and how the constructor [clazz(requester=..., headers={}, attributes=value,
    completed=True)] of an object class of the library ([NamedUser],
    [Repository], [CheckSuite], [Branch], [Commit]) takes the attributes it
    is given: it returns, or it raises. *)
Record externals : Type := mkExternals {
  int_of_str : string → option Z;
  environ : string → option string;
  private_key_pem : result string;
  get_access_token : option Z → string → option Z → result string;
  AppUserAuth__init__ : auth → result unit;
  parse : option string → result Z;
  Requester__init__ : auth → gmap string json;
  Requester_class : string → option json;
  GithubObject__init__ : string → json → result unit
}.

Definition emit (e : effect) : M world unit :=
  modify (λ w, mkWorld (handlers w) (Event_attrs w) (allocated w) (trace w ++ [e])).

(** [Event.name = value] *)
Definition setattr_Event (name : string) (value : json) : M world unit :=
  modify (λ w, mkWorld (handlers w) (<[name := value]> (Event_attrs w)) (allocated w) (trace w)).

(** [handlers[event].append(method)] on the [defaultdict(list)] *)
Definition append_handler (event : string) (method : handler) : M world unit :=
  modify (λ w, mkWorld (<[event := default [] (handlers w !! event) ++ [method]]> (handlers w))
                       (Event_attrs w) (allocated w) (trace w)).

(** [object.__new__] *)
Definition new (cls : string) : M world nat :=
  λ w, (Ok (allocated w),
        mkWorld (handlers w) (Event_attrs w) (S (allocated w)) (trace w ++ [New cls (allocated w)])).

(** The class attributes of [Event] as the module declares them. *)
Definition Event_attrs0 : gmap string json :=
  list_to_map (map (λ k, (k, JNull))
    ["delivery"; "github_event"; "hook_id"; "hook_installation_target_id";
     "hook_installation_target_type"; "installation_id"; "event_identifier";
     "_raw_body"; "_raw_headers"]).

Definition world0 : world := mkWorld ∅ Event_attrs0 0 [].

(** ** Subscripting, [int()], truthiness *)

Definition subscript (d : dict) (k : string) : result json :=
  match dict_get d k with
  | Some v => Ok v
  | None => Raise (KeyError k)
  end.

Definition subscript_json (v : json) (k : string) : result json :=
  match v with
  | JObj d => subscript d k
  | JStr _ => Raise (TypeError "string indices must be integers")
  | JArr _ => Raise (TypeError "list indices must be integers or slices")
  | _ => Raise (TypeError "object is not subscriptable")
  end.

Definition int (ext : externals) (v : json) : result Z :=
  match v with
  | JStr s =>
      match int_of_str ext s with
      | Some n => Ok n
      | None => Raise (ValueError "invalid literal for int() with base 10")
      end
  | JInt n => Ok n
  | JBool b => Ok (Z.b2z b)
  | _ => Raise (TypeError "int() argument must be a string or a number")
  end.

Definition truthy (o : option string) : bool :=
  match o with
  | Some s => negb (String.eqb s "")
  | None => false
  end.

Definition dict_has (d : dict) (k : string) : bool :=
  match dict_get d k with Some _ => true | None => false end.

Definition mem (k : string) (l : list string) : bool := existsb (String.eqb k) l.

(** ** [githubapp/events/event.py]: construction of an event *)

(** [for x in value]: the items of a list, the characters of a string, the
    keys of a mapping; anything else is not iterable. *)
Definition iter (value : json) : result (list json) :=
  match value with
  | JArr items => Ok items
  | JStr s => Ok (map (λ c, JStr (String c "")) (list_ascii_of_string s))
  | JObj members => Ok (map (λ kv, JStr kv.1) members)
  | _ => Raise (TypeError "object is not iterable")
  end.

(** [[f(x) for x in l]]: in order, up to the first exception. *)
Section Comprehension.
Context {A B : Type} (f : A → result B).

Fixpoint comprehension (l : list A) : result (list B) :=
  match l with
  | [] => Ok []
  | x :: l' => y ← f x; ys ← comprehension l'; Ok (y :: ys)
  end.
End Comprehension.

(** The object that the library builds from attributes it takes. *)
Definition parsed (requester : Requester) (clazz : string) (value : json) : github_object :=
  mkObject clazz requester value true.

(** [self._parse_object(clazz, value)] *)
Definition _parse_object (ext : externals) (requester : Requester) (clazz : string)
    (value : json) : result github_object :=
  GithubObject__init__ ext clazz value;;
  Ok (parsed requester clazz value).

(** [Event.__init__(self, *, gh, requester, headers, sender, repository=None,
    **kwargs)], called by the initializer of the subclass, which has bound
    its own parameters and passes the rest of the payload on as [kwargs]. *)
Definition Event__init__ (ext : externals) (self : nat) (self_type : string)
    (gh : Github) (requester : Requester) (headers kwargs : dict) : M world event :=
  match dict_get kwargs "sender" with
  | None => raise (TypeError "__init__() missing 1 required keyword-only argument: 'sender'")
  | Some sender =>
      let repository := default JNull (dict_get kwargs "repository") in
      let kwargs := List.filter (λ kv, negb (mem kv.1 ["sender"; "repository"])) kwargs in
      v ← lift (subscript headers "X-Github-Delivery");
      setattr_Event "delivery" v;;
      v ← lift (subscript headers "X-Github-Event");
      setattr_Event "github_event" v;;
      v ← lift (subscript headers "X-Github-Hook-Id" ≫= int ext);
      setattr_Event "hook_id" (JInt v);;
      v ← lift (subscript headers "X-Github-Hook-Installation-Target-Id" ≫= int ext);
      setattr_Event "hook_installation_target_id" (JInt v);;
      v ← lift (subscript headers "X-Github-Hook-Installation-Target-Type");
      setattr_Event "hook_installation_target_type" v;;
      setattr_Event "_raw_headers" (JObj headers);;
      setattr_Event "_raw_body" (JObj kwargs);;
      repository ←
        lift (match repository with
              | JNull => Ok None
              | _ => o ← _parse_object ext requester "Repository" repository; Ok (Some o)
              end);
      sender ← lift (_parse_object ext requester "NamedUser" sender);
      mret (mkEvent self self_type gh requester repository sender [])
  end.

(** One statement of a subclass initializer: the value it assigns. *)
Definition init_field (ext : externals) (requester : Requester) (u : usage) (value : json)
    : result attribute :=
  match u with
  | Assign => Ok (Value value)
  | Parse clazz => o ← _parse_object ext requester clazz value; Ok (Object o)
  | ParseEach clazz =>
      items ← iter value;
      os ← comprehension (_parse_object ext requester clazz) items;
      Ok (Objects os)
  end.

(** The statements of a subclass initializer that follow
    [super().__init__]: the attributes they assign, up to the first
    exception. *)
Definition init_body (ext : externals) (requester : Requester)
    (init_fields : list (string * usage)) (body : dict) : result (list (string * attribute)) :=
  comprehension
    (λ '(name, u), a ← init_field ext requester u (default JNull (dict_get body name));
                   Ok (name, a))
    init_fields.

Definition with_fields (ev : event) (fields : list (string * attribute)) : event :=
  mkEvent (oid ev) (event_type ev) (gh ev) (requester ev) (repository ev) (sender ev) fields.

(** [event_class(gh=gh, requester=requester, headers=headers, **body)]: the
    keywords must not clash, the object is allocated, the initializer of the
    subclass binds its parameters, calls [Event.__init__] with the rest and
    then runs its own statements. *)
Definition construct (ext : externals) (event_class : event_class)
    (gh : Github) (requester : Requester) (headers body : dict) : M world event :=
  if existsb (dict_has body) ["gh"; "requester"; "headers"]
  then raise (TypeError "got multiple values for keyword argument")
  else
    self ← new (cls_name event_class);
    if dict_has body "self"
    then raise (TypeError "__init__() got multiple values for argument 'self'")
    else
      match List.find (λ p, negb (dict_has body p)) (init_params event_class) with
      | Some p =>
          raise (TypeError ("__init__() missing 1 required positional argument: " +:+ p))
      | None =>
          ev ← Event__init__ ext self (cls_name event_class) gh requester headers
                 (List.filter (λ kv, negb (mem kv.1 (init_params event_class))) body);
          fields ← lift (init_body ext requester (init_fields event_class) body);
          mret (with_fields ev fields)
      end.

(** ** [githubapp/webhook_handler.py] *)

(** [SignatureError(method, signature).message] *)
Definition SignatureError_message (method : handler) (signature : string) : string :=
  "Method " +:+ qualname method +:+ "(" +:+ signature +:+ ") signature error. "
  +:+ "The method must accept only one argument of the Event type".

Definition _validate_signature (method : handler) : result unit :=
  if negb (Nat.eqb (length (parameters method)) 1)
  then
    let signature := PyStr.join ", " (parameters method) in
    Raise (SignatureError (SignatureError_message method signature))
  else Ok tt.

Fixpoint add_handler (event : event_class) (method : handler) : M world unit :=
  match subclasses event with
  | [] =>
      lift (_validate_signature method);;
      append_handler (cls_name event) method
  | _ => for_each (λ sub_event, add_handler sub_event method) (subclasses event)
  end.

(** [webhook_handler(event)(method)]: the decorator. *)
Definition webhook_handler (event : event_class) (method : handler) : M world handler :=
  add_handler event method;;
  mret method.

Definition private_key (ext : externals) : result string :=
  if truthy (environ ext "PRIVATE_KEY")
  then Ok (default "" (environ ext "PRIVATE_KEY"))
  else private_key_pem ext.

Definition _get_auth (ext : externals)
    (hook_installation_target_id installation_id : option Z) : M world auth :=
  if truthy (environ ext "CLIENT_ID")
  then
    let auth := AppUserAuth (environ ext "CLIENT_ID") (environ ext "CLIENT_SECRET")
                  (environ ext "TOKEN") None None None in
    lift (AppUserAuth__init__ ext auth);;
    mret auth
  else
    key ← lift (private_key ext);
    emit (GetAccessToken hook_installation_target_id installation_id);;
    token ← lift (get_access_token ext hook_installation_target_id key installation_id);
    mret (Token token).

(** The body of the loop of [handle]:
    [handler(event_class(gh=gh, requester=requester, headers=headers, **body))] *)
Definition invoke (ext : externals) (event_class : event_class)
    (gh : Github) (requester : Requester) (headers body : dict)
    (handler : handler) : M world unit :=
  ev ← construct ext event_class gh requester headers body;
  emit (Call handler (oid ev));;
  lift (call handler ev).

(** [handle(headers, body)]; [Event] is the root of the hierarchy. *)
Definition handle (ext : externals) (Event : event_class) (headers body : dict) : M world unit :=
  event_class ← lift (get_event Event headers body);
  hook_installation_target_id ←
    lift (subscript headers "X-Github-Hook-Installation-Target-Id" ≫= int ext);
  installation_id ←
    lift (installation ← subscript body "installation";
          subscript_json installation "id" ≫= int ext);
  auth ← _get_auth ext (Some hook_installation_target_id) (Some installation_id);
  let gh := mkGithub auth in
  let requester := mkRequester auth in
  hs ← gets (λ w, default [] (handlers w !! cls_name event_class));
  for_each (invoke ext event_class gh requester headers body) hs.

(** ** [githubapp/LazyCompletableGithubObject.py] *)

(** A [LazyRequester] instance: the flag set by its [__init__] and the
    instance attributes that [Requester.__init__] stores. *)
Record LazyRequester : Type := mkLazyRequester {
  _initialized : bool;
  requester_dict : gmap string json
}.

(** [LazyRequester()] *)
Definition LazyRequester__init__ : LazyRequester := mkLazyRequester false ∅.

Definition on_world {S A} (m : M world A) : M (S * world) A :=
  λ '(s, w), let '(r, w') := m w in (r, (s, w')).

Definition on_self {S A} (m : M S A) : M (S * world) A :=
  λ '(s, w), let '(r, s') := m s in (r, (s', w)).

Definition Event_attr_int (w : world) (name : string) : option Z :=
  match Event_attrs w !! name with
  | Some (JInt n) => Some n
  | _ => None
  end.

(** [LazyRequester.initialize(self)] *)
Definition initialize (ext : externals) : M (LazyRequester * world) unit :=
  on_world (emit Initialize);;
  auth ←
    (if truthy (environ ext "CLIENT_ID")
     then
       date ← lift (parse ext (environ ext "DATE"));
       let auth := AppUserAuth (environ ext "CLIENT_ID") (environ ext "CLIENT_SECRET")
                     (environ ext "TOKEN") (Some (date + 28800)%Z)
                     (environ ext "REFRESH_TOKEN") (Some (date + 15811200)%Z) in
       lift (AppUserAuth__init__ ext auth);;
       mret auth
     else
       key ← lift (private_key ext);
       app_id ← on_world (gets (λ w, Event_attr_int w "hook_installation_target_id"));
       installation_id ← on_world (gets (λ w, Event_attr_int w "installation_id"));
       on_world (emit (GetAccessToken app_id installation_id));;
       token ← lift (get_access_token ext app_id key installation_id);
       mret (Token token));
  on_self (modify (λ self, mkLazyRequester (_initialized self)
                             (Requester__init__ ext auth ∪ requester_dict self))).

(** Ordinary attribute lookup on the instance: its own attributes
    ([_initialized] and what [Requester.__init__] stored), then those of the
    class [Requester]. *)
Definition lookup_attr (ext : externals) (self : LazyRequester) (item : string) : option json :=
  if String.eqb item "_initialized" then Some (JBool (_initialized self))
  else
    match requester_dict self !! item with
    | Some v => Some v
    | None => Requester_class ext item
    end.

(** [getattr(self, item)] on a [LazyRequester]: ordinary lookup, and
    [__getattr__] when that fails.  [__getattr__] calls [getattr] again after
    [initialize]; [fuel] bounds the depth of that recursion (two levels are
    all it ever takes). *)
Fixpoint getattr (ext : externals) (fuel : nat) (item : string) : M (LazyRequester * world) json :=
  match fuel with
  | O => raise (UserError "RecursionError")
  | S fuel' =>
      self ← gets fst;
      match lookup_attr ext self item with
      | Some v => mret v
      | None =>
          (* __getattr__(self, item) *)
          if negb (_initialized self)
          then
            on_self (modify (λ self, mkLazyRequester true (requester_dict self)));;
            initialize ext;;
            getattr ext fuel' item
          else
            raise (AttributeError ("'LazyRequester' object has no attribute '" +:+ item +:+ "'"))
      end
  end.

(** A lazy object: what [CompletableGithubObject.__init__] keeps, and the
    requester that [LazyCompletableGithubObject.__init__] installs. *)
Record LazyCompletableGithubObject : Type := mkLazyObject {
  lazy_headers : dict;
  lazy_attributes : option dict;
  lazy_completed : bool;
  _requester : LazyRequester
}.

Definition LazyCompletableGithubObject__init__ (requester : option Requester)
    (headers attributes : option dict) (completed : bool) : LazyCompletableGithubObject :=
  mkLazyObject (default [] headers) attributes completed LazyRequester__init__.

(** [get_lazy_instance(clazz, attributes)] *)
Definition get_lazy_instance (clazz : string) (attributes : dict) : LazyCompletableGithubObject :=
  LazyCompletableGithubObject__init__ None None (Some attributes) false.

(** A sequence of attribute reads on one requester; the outcome of each. *)
Fixpoint reads (ext : externals) (fuel : nat) (items : list string)
    (s : LazyRequester * world) : list (result json) * (LazyRequester * world) :=
  match items with
  | [] => ([], s)
  | item :: items' =>
      let '(r, s') := getattr ext fuel item s in
      let '(rs, s'') := reads ext fuel items' s' in
      (r :: rs, s'')
  end.

(** How often an effect occurs in a trace. *)
Definition is_Initialize (e : effect) : bool :=
  match e with Initialize => true | _ => false end.
Definition is_GetAccessToken (e : effect) : bool :=
  match e with GetAccessToken _ _ => true | _ => false end.
Definition is_New (e : effect) : bool :=
  match e with New _ _ => true | _ => false end.

Definition count (p : effect → bool) (t : list effect) : nat := length (List.filter p t).

(** ** Predicates of the statements *)

(** The names of the classes below (and including) [cls], and of its leaves,
    in the order in which [add_handler] visits them. *)
Fixpoint classes (cls : event_class) : list string :=
  cls_name cls :: flat_map classes (subclasses cls).

Fixpoint leaves (cls : event_class) : list string :=
  match subclasses cls with
  | [] => [cls_name cls]
  | subs => flat_map leaves subs
  end.

(** [chain c path d]: [path] lists the classes from [c] down to [d], each a
    direct subclass of the one before. *)
Inductive chain : event_class → list event_class → event_class → Prop :=
| chain_here c : chain c [c] c
| chain_step c sub path d :
    In sub (subclasses c) → chain sub path d → chain c (c :: path) d.

(** Every class strictly below [cls] has an [event_identifier] dictionary. *)
Fixpoint identifiers_declared (cls : event_class) : bool :=
  forallb (λ sub, match event_identifier sub with Some _ => true | None => false end
                  && identifiers_declared sub)
          (subclasses cls).

(** [data] has every key of the identifier of [cls], with an equal value. *)
Definition satisfied (cls : event_class) (data : gmap string json) : Prop :=
  ∀ identifier, event_identifier cls = Some identifier →
    ∀ attr value, In (attr, value) identifier → data !! attr = Some (JStr value).

Definition is_Ok {A} (r : result A) : bool :=
  match r with Ok _ => true | Raise _ => false end.

(** The payload that reaches [Event.__init__] from the constructor of
    [cls], and what is left of it as [**kwargs]. *)
Definition passed_on (cls : event_class) (body : dict) : dict :=
  List.filter (λ kv, negb (mem kv.1 (init_params cls))) body.

Definition kwargs_of (cls : event_class) (body : dict) : dict :=
  List.filter (λ kv, negb (mem kv.1 ["sender"; "repository"])) (passed_on cls body).

(** The payload binds to the parameters of the constructor of [cls] and
    [Event.__init__] can read its headers: the construction gets as far as
    the last assignment to a class attribute.  The objects of the payload
    are parsed after that, which may still raise. *)
Definition binds (ext : externals) (cls : event_class) (headers body : dict) : bool :=
  negb (existsb (dict_has body) ["gh"; "requester"; "headers"; "self"])
  && forallb (dict_has body) (init_params cls)
  && dict_has (List.filter (λ kv, negb (mem kv.1 (init_params cls))) body) "sender"
  && is_Ok (subscript headers "X-Github-Delivery")
  && is_Ok (subscript headers "X-Github-Event")
  && is_Ok (subscript headers "X-Github-Hook-Id" ≫= int ext)
  && is_Ok (subscript headers "X-Github-Hook-Installation-Target-Id" ≫= int ext)
  && is_Ok (subscript headers "X-Github-Hook-Installation-Target-Type").

(** The library constructs an object of class [clazz] from [value]. *)
Definition parses (ext : externals) (clazz : string) (value : json) : bool :=
  is_Ok (GithubObject__init__ ext clazz value).

(** The statement that assigns a parameter runs on [value]: what it parses
    is taken by the library, and what it iterates over is iterable. *)
Definition usable (ext : externals) (u : usage) (value : json) : bool :=
  match u with
  | Assign => true
  | Parse clazz => parses ext clazz value
  | ParseEach clazz =>
      match iter value with
      | Ok items => forallb (parses ext clazz) items
      | Raise _ => false
      end
  end.

(** The payload has what the constructor of [cls] needs: it binds, and the
    library takes the sender, the repository unless it is [None], and what
    the initializer of [cls] parses. *)
Definition accepts (ext : externals) (cls : event_class) (headers body : dict) : bool :=
  binds ext cls headers body
  && match default JNull (dict_get (passed_on cls body) "repository") with
     | JNull => true
     | repository => parses ext "Repository" repository
     end
  && parses ext "NamedUser" (default JNull (dict_get (passed_on cls body) "sender"))
  && forallb (λ '(name, u), usable ext u (default JNull (dict_get body name)))
             (init_fields cls).

(** Credentials can be obtained for the application and installation. *)
Definition authenticates (ext : externals) (app_id installation_id : option Z) : bool :=
  if truthy (environ ext "CLIENT_ID")
  then is_Ok (AppUserAuth__init__ ext
                (AppUserAuth (environ ext "CLIENT_ID") (environ ext "CLIENT_SECRET")
                   (environ ext "TOKEN") None None None))
  else match private_key ext with
       | Ok key => is_Ok (get_access_token ext app_id key installation_id)
       | Raise _ => false
       end.

(** [handle] gets as far as its loop on this delivery, and the constructor of
    [cls] accepts it. *)
Definition deliverable (ext : externals) (cls : event_class) (headers body : dict) : bool :=
  match subscript headers "X-Github-Hook-Installation-Target-Id" ≫= int ext,
        (installation ← subscript body "installation";
         subscript_json installation "id" ≫= int ext) with
  | Ok app_id, Ok installation_id =>
      authenticates ext (Some app_id) (Some installation_id)
      && accepts ext cls headers body
  | _, _ => false
  end.

(** [handle] gets as far as its loop on this delivery, and the payload binds
    to the constructor of [cls]: with a handler registered, the class
    attributes of [Event] get assigned, whether or not the construction then
    completes. *)
Definition assigns (ext : externals) (cls : event_class) (headers body : dict) : bool :=
  match subscript headers "X-Github-Hook-Installation-Target-Id" ≫= int ext,
        (installation ← subscript body "installation";
         subscript_json installation "id" ≫= int ext) with
  | Ok app_id, Ok installation_id =>
      authenticates ext (Some app_id) (Some installation_id)
      && binds ext cls headers body
  | _, _ => false
  end.

(** The handlers that a trace calls, with the instance each one receives. *)
Fixpoint calls (t : list effect) : list (handler * nat) :=
  match t with
  | [] => []
  | Call h obj :: t' => (h, obj) :: calls t'
  | _ :: t' => calls t'
  end.

(** The effects of running [m] from [w]. *)
Definition effects_of {A} (m : M world A) (w : world) : list effect :=
  List.skipn (length (trace w)) (trace (m w).2).

Definition returns (h : handler) : Prop := ∀ ev, call h ev = Ok tt.

(** The world once [method] is appended to the list of each class of
    [names], in turn. *)
Definition registered (names : list string) (method : handler) (w : world) : world :=
  foldl (λ w name, (append_handler name method w).2) w names.

(** The class attributes of [Event] that [Event.__init__] assigns. *)
Definition assigned_attrs : list string :=
  ["delivery"; "github_event"; "hook_id"; "hook_installation_target_id";
   "hook_installation_target_type"; "_raw_headers"; "_raw_body"].

Definition from_Ok (r : result json) : json :=
  match r with Ok v => v | Raise _ => JNull end.

Definition from_Ok_int (r : result Z) : json :=
  match r with Ok n => JInt n | Raise _ => JNull end.

(** The values that a completed [Event.__init__] leaves in the class
    attributes. *)
Definition Event_attrs_of (ext : externals) (cls : event_class) (headers body : dict)
    : gmap string json :=
  list_to_map
    [("_raw_body", JObj (kwargs_of cls body));
     ("_raw_headers", JObj headers);
     ("hook_installation_target_type",
       from_Ok (subscript headers "X-Github-Hook-Installation-Target-Type"));
     ("hook_installation_target_id",
       from_Ok_int (subscript headers "X-Github-Hook-Installation-Target-Id" ≫= int ext));
     ("hook_id", from_Ok_int (subscript headers "X-Github-Hook-Id" ≫= int ext));
     ("github_event", from_Ok (subscript headers "X-Github-Event"));
     ("delivery", from_Ok (subscript headers "X-Github-Delivery"))].

(** What a statement of an initializer assigns when it runs on [value]. *)
Definition assigned (requester : Requester) (u : usage) (value : json) : attribute :=
  match u with
  | Assign => Value value
  | Parse clazz => Object (parsed requester clazz value)
  | ParseEach clazz =>
      Objects (map (parsed requester clazz)
                 (match iter value with Ok items => items | Raise _ => [] end))
  end.

(** The instance that the constructor of [cls] builds as object [n] from a
    payload it accepts. *)
Definition instance (cls : event_class) (gh : Github) (requester : Requester)
    (body : dict) (n : nat) : event :=
  mkEvent n (cls_name cls) gh requester
    (let repository := default JNull (dict_get (passed_on cls body) "repository") in
     match repository with
     | JNull => None
     | _ => Some (parsed requester "Repository" repository)
     end)
    (parsed requester "NamedUser"
       (default JNull (dict_get (passed_on cls body) "sender")))
    (map (λ '(name, u), (name, assigned requester u (default JNull (dict_get body name))))
       (init_fields cls)).

(** How a construction ends once the payload binds and the headers are read:
    with the instance, or with the first exception of the parsing. *)
Definition constructed (ext : externals) (cls : event_class) (gh : Github)
    (requester : Requester) (body : dict) (n : nat) : result event :=
  repository ←
    (match default JNull (dict_get (passed_on cls body) "repository") with
     | JNull => Ok None
     | repository => o ← _parse_object ext requester "Repository" repository; Ok (Some o)
     end);
  sender ← _parse_object ext requester "NamedUser"
             (default JNull (dict_get (passed_on cls body) "sender"));
  fields ← init_body ext requester (init_fields cls) body;
  Ok (mkEvent n (cls_name cls) gh requester repository sender fields).

(** One fresh instance, then one call, per handler. *)
Fixpoint dispatch_trace (cls : string) (n : nat) (hs : list handler) : list effect :=
  match hs with
  | [] => []
  | h :: hs' => New cls n :: Call h n :: dispatch_trace cls (S n) hs'
  end.

(** How many handlers of [hs] get called when instances are numbered from
    [n], and how the loop ends: it stops at the first handler that raises. *)
Fixpoint dispatch_outcome (ev : nat → event) (hs : list handler) (n : nat)
    : result unit * nat :=
  match hs with
  | [] => (Ok tt, 0)
  | h :: hs' =>
      match call h (ev n) with
      | Ok _ => let '(r, k) := dispatch_outcome ev hs' (S n) in (r, S k)
      | Raise e => (Raise e, 1)
      end
  end.

(** What [_get_auth] does that can be observed. *)
Definition auth_effects (ext : externals) (app_id installation_id : option Z) : list effect :=
  if truthy (environ ext "CLIENT_ID") then []
  else match private_key ext with
       | Ok _ => [GetAccessToken app_id installation_id]
       | Raise _ => []
       end.

Definition add_trace (w : world) (t : list effect) : world :=
  mkWorld (handlers w) (Event_attrs w) (allocated w) (trace w ++ t).

(** [w'] differs from [w] at most in the assigned class attributes, the
    allocation counter and a trace extended with allocations. *)
Definition quiet (w w' : world) : Prop :=
  handlers w' = handlers w
  ∧ (∀ k, k ∉ assigned_attrs → Event_attrs w' !! k = Event_attrs w !! k)
  ∧ ∃ t, trace w' = trace w ++ t ∧ Forall (λ e, is_New e = true) t.

(** Every run of [m] relates the state before to the state after. *)
Definition preserves {A} (R : world → world → Prop) (m : M world A) : Prop :=
  ∀ w, R w (m w).2.

(** ** A concrete instance: the classes of [check_suite.py] and [status.py] *)

Module Example.

(** [CheckSuiteEvent.__init__], which the three subclasses inherit. *)
Definition CheckSuiteEvent__init__ : list (string * usage) :=
  [("check_suite", Parse "CheckSuite")].

Definition CheckSuiteCompletedEvent : event_class :=
  EventClass "CheckSuiteCompletedEvent" (Some [("action", "completed")])
    CheckSuiteEvent__init__ [].
Definition CheckSuiteRequestedEvent : event_class :=
  EventClass "CheckSuiteRequestedEvent" (Some [("action", "requested")])
    CheckSuiteEvent__init__ [].
Definition CheckSuiteRerequestedEvent : event_class :=
  EventClass "CheckSuiteRerequestedEvent" (Some [("action", "rerequested")])
    CheckSuiteEvent__init__ [].
Definition CheckSuiteEvent : event_class :=
  EventClass "CheckSuiteEvent" (Some [("event", "check_suite")]) CheckSuiteEvent__init__
    [CheckSuiteCompletedEvent; CheckSuiteRequestedEvent; CheckSuiteRerequestedEvent].
Definition StatusEvent : event_class :=
  EventClass "StatusEvent" (Some [("event", "status")])
    [("branches", ParseEach "Branch"); ("commit", Parse "Commit"); ("context", Assign);
     ("created_at", Assign); ("description", Assign); ("id", Assign); ("name", Assign);
     ("sha", Assign); ("state", Assign); ("target_url", Assign); ("updated_at", Assign)] [].
Definition Event : event_class :=
  EventClass "Event" None [] [CheckSuiteEvent; StatusEvent].

(** [int()] on a plain decimal literal. *)
Fixpoint digits (s : string) (acc : Z) : option Z :=
  match s with
  | EmptyString => Some acc
  | String c s' =>
      let n := nat_of_ascii c in
      if (48 <=? n)%nat && (n <=? 57)%nat
      then digits s' (10 * acc + Z.of_nat (n - 48))%Z
      else None
  end.
Definition decimal (s : string) : option Z :=
  match s with
  | EmptyString => None
  | _ => digits s 0%Z
  end.

(** A stand-in for the object classes of the library: they take a mapping,
    and raise on attributes that are not one. *)
Definition mapping_only (clazz : string) (attributes : json) : result unit :=
  match attributes with
  | JObj _ => Ok tt
  | _ => Raise (TypeError "argument of this type is not iterable")
  end.

(** An installation-token environment: [PRIVATE_KEY] set, no [CLIENT_ID]. *)
Definition ext : externals :=
  mkExternals decimal
    (λ name, if String.eqb name "PRIVATE_KEY" then Some "key" else None)
    (Raise (OSError "private-key.pem"))
    (λ _ _ _, Ok "ghs_token")
    (λ _, Ok tt)
    (λ _, Raise (TypeError "Parser must be a string or character stream"))
    (λ _, {["_Requester__base_url" := JStr "https://api.github.com"]})
    (λ name, if String.eqb name "requestJsonAndCheck" then Some JNull else None)
    mapping_only.

(** A user-token environment: [CLIENT_ID], [CLIENT_SECRET] and [TOKEN] set. *)
Definition ext_user : externals :=
  mkExternals decimal
    (λ name, if mem name ["CLIENT_ID"; "CLIENT_SECRET"; "TOKEN"] then Some "value" else None)
    (Raise (OSError "private-key.pem"))
    (λ _ _ _, Raise (UserError "no installation"))
    (λ _, Ok tt)
    (λ _, Raise (TypeError "Parser must be a string or character stream"))
    (λ _, ∅)
    (λ _, None)
    mapping_only.

(** An installation-token environment whose token service refuses. *)
Definition ext_refused : externals :=
  mkExternals decimal
    (λ name, if String.eqb name "PRIVATE_KEY" then Some "key" else None)
    (Raise (OSError "private-key.pem"))
    (λ _ _ _, Raise (UserError "401 Bad credentials"))
    (λ _, Ok tt)
    (λ _, Raise (TypeError "Parser must be a string or character stream"))
    (λ _, ∅)
    (λ _, None)
    mapping_only.

Definition headers : dict :=
  [("X-Github-Delivery", JStr "a1b2c3d4");
   ("X-Github-Event", JStr "check_suite");
   ("X-Github-Hook-Id", JStr "1");
   ("X-Github-Hook-Installation-Target-Id", JStr "2");
   ("X-Github-Hook-Installation-Target-Type", JStr "type")].

Definition body : dict :=
  [("action", JStr "completed");
   ("check_suite", JObj []);
   ("installation", JObj [("id", JInt 3)]);
   ("repository", JObj [("url", JStr "https://github.com/o/r")]);
   ("sender", JObj [("login", JStr "octocat")])].

(** A status delivery. *)
Definition status_headers : dict :=
  [("X-Github-Delivery", JStr "e5f6a7b8");
   ("X-Github-Event", JStr "status");
   ("X-Github-Hook-Id", JStr "1");
   ("X-Github-Hook-Installation-Target-Id", JStr "2");
   ("X-Github-Hook-Installation-Target-Type", JStr "type")].

Definition status_body : dict :=
  [("branches", JArr [JObj []]);
   ("commit", JObj []);
   ("context", JStr "ci");
   ("created_at", JStr "2024-01-01T00:00:00Z");
   ("description", JNull);
   ("id", JInt 7);
   ("name", JStr "o/r");
   ("sha", JStr "0a1b2c");
   ("state", JStr "success");
   ("target_url", JNull);
   ("updated_at", JStr "2024-01-01T00:00:00Z");
   ("installation", JObj [("id", JInt 3)]);
   ("repository", JObj [("url", JStr "https://github.com/o/r")]);
   ("sender", JObj [("login", JStr "octocat")])].

Definition method : handler := mkHandler "method" ["event"] (λ _, Ok tt).
Definition other : handler := mkHandler "other" ["event"] (λ _, Ok tt).
Definition no_args : handler := mkHandler "test.<locals>.method" [] (λ _, Ok tt).
Definition failing : handler :=
  mkHandler "failing" ["event"] (λ _, Raise (UserError "handler failed")).

End Example.

(** ** Further notions, for the properties of the code beyond the claims *)

(** The loop of [get_event] over the subclasses still to try. *)
Fixpoint for_event (cls : event_class) (headers body : dict) (union_dict : gmap string json)
    (events : list event_class) : result event_class :=
  match events with
  | [] => Ok cls
  | event :: events' =>
      match match_ event union_dict with
      | Raise e => Raise e
      | Ok true => get_event event headers body
      | Ok false => for_event cls headers body union_dict events'
      end
  end.

(** The value of the last item of [d] whose key normalizes to [k]. *)
Fixpoint last_value (d : dict) (k : string) : option json :=
  match d with
  | [] => None
  | (attr, value) :: d' =>
      match last_value d' k with
      | Some v => Some v
      | None => if String.eqb (normalize_key attr) k then Some value else None
      end
  end.

(** Every list of the registry only grew, at its end. *)
Definition grown (w w' : world) : Prop :=
  ∀ k, default [] (handlers w !! k) `prefix_of` default [] (handlers w' !! k).

(** Every key of the registry is a leaf below [Event]. *)
Definition keyed_by_leaves (Event : event_class) (w : world) : Prop :=
  ∀ k, is_Some (handlers w !! k) → k ∈ leaves Event.

(** [add_handler(event, method)] for each pair of a list, in turn. *)
Definition add_handlers (registrations : list (event_class * handler)) : M world unit :=
  for_each (λ registration, add_handler registration.1 registration.2) registrations.

(** * Properties *)

(** ** Strings *)

Module PyStrFacts.
Import PyStr.

Lemma append_cons a s r : String a s +:+ r = String a (s +:+ r).
Proof. reflexivity. Qed.










Lemma prefix_split p : ∀ s,
  String.prefix p s = true → s = p +:+ drop (String.length p) s.
Proof.
  induction p as [|a p IH]; intros [|c s]; cbn; try done.
  destruct (ascii_dec a c) as [->|]; [|done].
  intros H. rewrite append_cons. f_equal. by apply IH.
Qed.

Lemma prefix_app p r : String.prefix p (p +:+ r) = true.
Proof.
  induction p as [|a p IH].
  - by destruct r.
  - rewrite append_cons. cbn. destruct (ascii_dec a a); [done|congruence].
Qed.

Lemma replace_skip old new p : ∀ r,
  replace_from old new (String.length p) (p +:+ r) = replace_from old new 0 r.
Proof.
  induction p as [|a p IH]; intros r.
  - by destruct r.
  - rewrite append_cons. cbn. apply IH.
Qed.

(** [(old + r).replace(old, new) = new + r.replace(old, new)] *)
Lemma replace_prefix a old new r :
  replace (String a old +:+ r) (String a old) new = new +:+ replace r (String a old) new.
Proof.
  unfold replace. rewrite append_cons. cbn [replace_from].
  rewrite <- append_cons, prefix_app. cbn [String.length pred].
  by rewrite replace_skip.
Qed.

(** Without an occurrence of [old], [replace] changes nothing. *)
Lemma replace_absent old new s :
  contains s old = false → replace s old new = s.
Proof.
  unfold replace. induction s as [|c s IH]; [done|].
  cbn [contains replace_from]. rewrite orb_false_iff. intros [-> Hs].
  by rewrite IH.
Qed.


End PyStrFacts.

(** ** Normalization *)

Section Normalize.
Import PyStr PyStrFacts.






End Normalize.

Ltac by_decide := apply (bool_decide_unpack _); vm_compute; exact I.

Section NormalizeDicts.
Import PyStr PyStrFacts.





End NormalizeDicts.




(** ** The URL rewrite *)

Lemma fix_attributes_frame (attributes attributes' : gmap string json) k :
  fix_attributes attributes = Ok attributes' → k ≠ "url" →
  attributes' !! k = attributes !! k.
Proof.
  unfold fix_attributes. intros H Hk.
  destruct (default (JStr "") (attributes !! "url")); try discriminate.
  destruct (PyStr.startswith s "https://github"); injection H as <-; [|done].
  by rewrite lookup_insert_ne.
Qed.

(** C9, as the code has it.  When the ["url"] starts with ["https://github"],
    every occurrence of ["https://github.com"] in it is replaced: a url
    ["https://github.com/x"] whose [x] has no further occurrence becomes
    ["https://api.github.com/repos/x"]; a url that does not start with
    ["https://github"], or a missing one, leaves the attributes as they are;
    no other attribute changes. *)
Theorem fix_attributes_url (attributes : gmap string json) :
  (∀ url, attributes !! "url" = Some (JStr url) →
     PyStr.startswith url "https://github" = true →
     fix_attributes attributes
     = Ok (<["url" := JStr (PyStr.replace url "https://github.com"
                              "https://api.github.com/repos")]> attributes)) ∧
  (∀ x, attributes !! "url" = Some (JStr ("https://github.com/" +:+ x)) →
     PyStr.contains x "https://github.com" = false →
     fix_attributes attributes
     = Ok (<["url" := JStr ("https://api.github.com/repos/" +:+ x)]> attributes)) ∧
  (∀ url, attributes !! "url" = Some (JStr url) →
     PyStr.startswith url "https://github" = false →
     fix_attributes attributes = Ok attributes) ∧
  (attributes !! "url" = None → fix_attributes attributes = Ok attributes) ∧
  (∀ attributes' k, fix_attributes attributes = Ok attributes' → k ≠ "url" →
     attributes' !! k = attributes !! k).
Proof.
  repeat split.
  - intros url Hurl Hs. unfold fix_attributes. rewrite Hurl. cbn [default from_option id].
    by rewrite Hs.
  - intros x Hurl Hx. unfold fix_attributes. rewrite Hurl. cbn [default from_option id].
    replace (PyStr.startswith ("https://github.com/" +:+ x) "https://github")
      with true by reflexivity.
    do 3 f_equal.
    change ("https://github.com/" +:+ x) with ("https://github.com" +:+ String "/" x).
    rewrite PyStrFacts.replace_prefix.
    change ("https://api.github.com/repos/" +:+ x)
      with ("https://api.github.com/repos" +:+ String "/" x).
    f_equal. unfold PyStr.replace. cbn [PyStr.replace_from]. 
    replace (String.prefix "https://github.com" (String "/" x)) with false by reflexivity.
    f_equal. by apply PyStrFacts.replace_absent.
  - intros url Hurl Hs. unfold fix_attributes. rewrite Hurl. cbn [default from_option id].
    by rewrite Hs.
  - intros Hurl. unfold fix_attributes. by rewrite Hurl.
  - intros attributes' k. apply fix_attributes_frame.
Qed.

Lemma fix_attributes_url_witness :
  fix_attributes {["url" := JStr "https://github.com/potato"; "id" := JInt 1]}
  = Ok (<["url" := JStr "https://api.github.com/repos/potato"]>
          {["url" := JStr "https://github.com/potato"; "id" := JInt 1]})
  ∧ fix_attributes {["url" := JStr "https://github.enterprise/potato"]}
    = Ok (<["url" := JStr "https://github.enterprise/potato"]>
            {["url" := JStr "https://github.enterprise/potato"]})
  ∧ fix_attributes {["url" := JStr "correct_url"]} = Ok {["url" := JStr "correct_url"]}
  ∧ fix_attributes {["id" := JInt 1]} = Ok {["id" := JInt 1]}
  ∧ (<["url" := JStr "https://api.github.com/repos/potato"]>
       {["url" := JStr "https://github.com/potato"; "id" := JInt 1]} : gmap string json)
      !! "id"
    = ({["url" := JStr "https://github.com/potato"; "id" := JInt 1]} : gmap string json)
        !! "id".
Proof.
  split; [|split; [|split; [|split]]].
  - apply (proj1 (proj2 (fix_attributes_url _)) "potato"); reflexivity.
  - apply (proj1 (fix_attributes_url _) "https://github.enterprise/potato"); reflexivity.
  - apply (proj1 (proj2 (proj2 (fix_attributes_url _))) "correct_url"); reflexivity.
  - apply (proj1 (proj2 (proj2 (proj2 (fix_attributes_url _))))); reflexivity.
  - apply (proj2 (proj2 (proj2 (proj2 (fix_attributes_url _))))).
    + reflexivity.
    + discriminate.
Defined.

(** C9 as the specification words it fails when the rest of the url contains
    the web host again: that occurrence is rewritten too. *)
Lemma fix_attributes_rewrites_every_occurrence :
  let x := "login?return_to=https://github.com/o/r" in
  fix_attributes {["url" := JStr ("https://github.com/" +:+ x)]}
  = Ok {["url" :=
           JStr "https://api.github.com/repos/login?return_to=https://api.github.com/repos/o/r"]}
  ∧ fix_attributes {["url" := JStr ("https://github.com/" +:+ x)]}
    ≠ Ok {["url" := JStr ("https://api.github.com/repos/" +:+ x)]}.
Proof.
  split; [reflexivity|].
  intros H.
  apply (f_equal (λ r : result (gmap string json),
                    match r with Ok m => m !! "url" | Raise _ => None end)) in H.
  vm_compute in H. discriminate H.
Qed.

(** ** Classification *)

Lemma match_satisfied cls data :
  match_ cls data = Ok true → satisfied cls data.
Proof.
  unfold match_, satisfied. intros Hm identifier Hi attr value Hin.
  rewrite Hi in Hm. injection Hm as Hm.
  rewrite forallb_forall in Hm. specialize (Hm _ Hin). cbn in Hm.
  destruct (data !! attr) as [[]|]; try discriminate.
  apply String.eqb_eq in Hm. by subst.
Qed.

Lemma match_declared cls data :
  is_Some (event_identifier cls) → ∃ b, match_ cls data = Ok b.
Proof. unfold match_. intros [identifier ->]. eauto. Qed.

Lemma get_event_unfold name identifier params subs headers body :
  get_event (EventClass name identifier params subs) headers body
  = (fix for_event (events : list event_class) : result event_class :=
       match events with
       | [] => Ok (EventClass name identifier params subs)
       | event :: events' =>
           match match_ event (normalize_dicts [headers; body]) with
           | Raise e => Raise e
           | Ok true => get_event event headers body
           | Ok false => for_event events'
           end
       end) subs.
Proof. reflexivity. Qed.

Lemma chain_head c path d : chain c path d → ∃ path', path = c :: path'.
Proof. intros []; eauto. Qed.

Lemma get_event_descends headers body : ∀ cls,
  identifiers_declared cls = true →
  ∃ c path,
    get_event cls headers body = Ok c
    ∧ chain cls (cls :: path) c
    ∧ Forall (λ x, match_ x (normalize_dicts [headers; body]) = Ok true) path
    ∧ (∀ s, In s (subclasses c) → match_ s (normalize_dicts [headers; body]) = Ok false)
    ∧ ((∀ s, In s (subclasses cls) → match_ s (normalize_dicts [headers; body]) = Ok false)
       → c = cls).
Proof.
  set (data := normalize_dicts [headers; body]).
  induction cls as [name identifier params subs IH] using event_class_induction.
  intros Hdecl. rewrite get_event_unfold. fold data.
  set (cls := EventClass name identifier params subs).
  cbn [identifiers_declared subclasses] in Hdecl.
  assert (Hloop : ∀ l, incl l subs →
    (∃ s c path, In s l ∧ match_ s data = Ok true
        ∧ (fix for_event (events : list event_class) : result event_class :=
             match events with
             | [] => Ok cls
             | event :: events' =>
                 match match_ event data with
                 | Raise e => Raise e
                 | Ok true => get_event event headers body
                 | Ok false => for_event events'
                 end
             end) l = Ok c
        ∧ chain s (s :: path) c
        ∧ Forall (λ x, match_ x data = Ok true) path
        ∧ (∀ s', In s' (subclasses c) → match_ s' data = Ok false))
    ∨ ((fix for_event (events : list event_class) : result event_class :=
             match events with
             | [] => Ok cls
             | event :: events' =>
                 match match_ event data with
                 | Raise e => Raise e
                 | Ok true => get_event event headers body
                 | Ok false => for_event events'
                 end
             end) l = Ok cls
        ∧ ∀ s, In s l → match_ s data = Ok false)).
  { induction l as [|s l IHl]; intros Hincl.
    - right. split; [done|]. intros s [].
    - assert (Hs : In s subs) by (apply Hincl; by left).
      rewrite forallb_forall in Hdecl. pose proof (Hdecl s Hs) as Hd.
      apply andb_true_iff in Hd as [Hid Hd].
      rewrite Forall_forall in IH.
      destruct (match_declared s data) as [[] Hm].
      { by destruct (event_identifier s). }
      + left. destruct (IH s) as (c & path & Hg & Hc & Hp & Hstop & _);
          [by apply list_elem_of_In|done|].
        exists s, c, path. rewrite Hm. repeat split; try done. by left.
      + destruct IHl as [(s' & c & path & Hin & Hm' & Hg & Hc & Hp & Hstop)|[Hg Hnone]].
        { intros x Hx. apply Hincl. by right. }
        * left. exists s', c, path. rewrite Hm. repeat split; try done. by right.
        * right. rewrite Hm. split; [done|]. intros x [<-|Hx]; auto. }
  destruct (Hloop subs (incl_refl _)) as [(s & c & path & Hin & Hm & Hg & Hc & Hp & Hstop)|[Hg Hnone]].
  - exists c, (s :: path). repeat split; try done.
    + by apply chain_step with (sub := s).
    + by constructor.
    + intros Hnone. rewrite (Hnone s Hin) in Hm. discriminate.
  - exists cls, []. repeat split; try done. constructor.
Qed.

(** C1.  On a hierarchy whose root is [Event] (no identifier of its own) and
    whose other classes each declare their identifier, [get_event] returns a
    class for every headers/body pair, never an exception; the classes from
    the root down to the returned one each have their identifier satisfied by
    the normalized union of headers and body; no subclass of the returned
    class matches; and when no subclass of the root matches, the result is
    the root. *)
Theorem get_event_total (Event : event_class) (headers body : dict) :
  event_identifier Event = None →
  identifiers_declared Event = true →
  ∃ cls path,
    get_event Event headers body = Ok cls
    ∧ (∀ r, get_event Event headers body = r → r = Ok cls)
    ∧ chain Event path cls
    ∧ Forall (λ c, satisfied c (normalize_dicts [headers; body])) path
    ∧ (∀ sub, In sub (subclasses cls) →
         match_ sub (normalize_dicts [headers; body]) = Ok false)
    ∧ ((∀ sub, In sub (subclasses Event) →
          match_ sub (normalize_dicts [headers; body]) = Ok false)
       → cls = Event).
Proof.
  intros Hroot Hdecl.
  destruct (get_event_descends headers body Event Hdecl)
    as (cls & path & Hg & Hc & Hp & Hstop & Hnone).
  exists cls, (Event :: path). repeat split; try done.
  - by intros r <-.
  - constructor.
    + intros identifier Hi. congruence.
    + eapply Forall_impl; [exact Hp|]. intros c. apply match_satisfied.
Qed.

Lemma get_event_total_witness :
  ∃ cls path,
    get_event Example.Event Example.headers Example.body = Ok cls
    ∧ (∀ r, get_event Example.Event Example.headers Example.body = r → r = Ok cls)
    ∧ chain Example.Event path cls
    ∧ Forall (λ c, satisfied c (normalize_dicts [Example.headers; Example.body])) path
    ∧ (∀ sub, In sub (subclasses cls) →
         match_ sub (normalize_dicts [Example.headers; Example.body]) = Ok false)
    ∧ ((∀ sub, In sub (subclasses Example.Event) →
          match_ sub (normalize_dicts [Example.headers; Example.body]) = Ok false)
       → cls = Example.Event).
Proof. apply get_event_total; reflexivity. Defined.

Example get_event_check_suite_completed :
  get_event Example.Event Example.headers Example.body = Ok Example.CheckSuiteCompletedEvent.
Proof. reflexivity. Qed.

Example get_event_root :
  get_event Example.Event [("X-Github-Event", JStr "push")] [] = Ok Example.Event.
Proof. reflexivity. Qed.

(** ** The state-and-exception monad: running a computation *)

Lemma bind_run {S A B} (m : M S A) (f : A → M S B) (s : S) :
  (m ≫= f) s = match m s with
               | (Ok a, s') => f a s'
               | (Raise e, s') => (Raise e, s')
               end.
Proof. reflexivity. Qed.

Lemma for_each_app {S A} (body : A → M S unit) (l1 l2 : list A) (s : S) :
  for_each body (l1 ++ l2) s
  = match for_each body l1 s with
    | (Ok _, s') => for_each body l2 s'
    | (Raise e, s') => (Raise e, s')
    end.
Proof.
  revert s. induction l1 as [|x l1 IH]; intros s; [done|].
  cbn [app for_each]. rewrite !bind_run.
  destruct (body x s) as [[[]|e] s']; [apply IH|done].
Qed.

Lemma run_lift {S A B} (r : result A) (f : A → M S B) (s : S) :
  (lift r ≫= f) s = match r with Ok a => f a s | Raise e => (Raise e, s) end.
Proof. rewrite bind_run. unfold lift. by destruct r. Qed.

Lemma run_modify {S B} (g : S → S) (f : unit → M S B) (s : S) :
  (modify g ≫= f) s = f tt (g s).
Proof. reflexivity. Qed.

Lemma run_gets {S A B} (g : S → A) (f : A → M S B) (s : S) :
  (gets g ≫= f) s = f (g s) s.
Proof. reflexivity. Qed.

Lemma run_ret {S A B} (a : A) (f : A → M S B) (s : S) :
  (mret a ≫= f) s = f a s.
Proof. reflexivity. Qed.

(** ** Registration *)

Lemma add_handler_leaf name identifier params method :
  add_handler (EventClass name identifier params []) method
  = (lift (_validate_signature method);; append_handler name method).
Proof. reflexivity. Qed.

Lemma add_handler_node name identifier params sub subs method :
  add_handler (EventClass name identifier params (sub :: subs)) method
  = for_each (λ sub_event, add_handler sub_event method) (sub :: subs).
Proof. reflexivity. Qed.

Lemma _validate_signature_ok method :
  length (parameters method) = 1 → _validate_signature method = Ok tt.
Proof. unfold _validate_signature. by intros ->. Qed.

Lemma _validate_signature_error method :
  length (parameters method) ≠ 1 →
  _validate_signature method
  = Raise (SignatureError
             ("Method " +:+ qualname method +:+ "("
              +:+ PyStr.join ", " (parameters method) +:+ ") signature error. "
              +:+ "The method must accept only one argument of the Event type")).
Proof.
  unfold _validate_signature. intros Hn.
  destruct (Nat.eqb_spec (length (parameters method)) 1); [done|reflexivity].
Qed.

Lemma add_handler_rejects method : ∀ event w,
  length (parameters method) ≠ 1 →
  add_handler event method w = (lift (_validate_signature method) : M world unit) w.
Proof.
  intros event w Hn. revert w.
  induction event as [name identifier params subs IH] using event_class_induction.
  intros w. destruct subs as [|sub subs].
  - rewrite add_handler_leaf, bind_run. unfold lift.
    by rewrite _validate_signature_error.
  - rewrite add_handler_node. cbn [for_each]. rewrite bind_run.
    apply Forall_cons in IH as [IH _]. rewrite IH. unfold lift.
    by rewrite _validate_signature_error.
Qed.

Lemma add_handler_registers method : ∀ event w,
  length (parameters method) = 1 →
  add_handler event method w = (Ok tt, registered (leaves event) method w).
Proof.
  intros event w Hn. revert w.
  induction event as [name identifier params subs IH] using event_class_induction.
  intros w. destruct subs as [|sub subs].
  - rewrite add_handler_leaf, bind_run. unfold lift.
    by rewrite _validate_signature_ok.
  - rewrite add_handler_node.
    change (leaves (EventClass name identifier params (sub :: subs)))
      with (flat_map leaves (sub :: subs)).
    revert w. induction (sub :: subs) as [|s l IHl]; intros w; [done|].
    apply Forall_cons in IH as [Hs Hl].
    cbn [for_each flat_map]. rewrite bind_run, Hs, IHl by done.
    unfold registered. by rewrite foldl_app.
Qed.

(** C4.  A handler whose signature has not exactly one parameter makes
    [add_handler] raise [SignatureError], with a message that names the
    handler and lists its parameters, and the process state (so the list of
    every event type) is as before; a handler with exactly one parameter is
    registered without an exception. *)
Theorem add_handler_signature (event : event_class) (method : handler) (w : world) :
  (length (parameters method) ≠ 1 →
     add_handler event method w
     = (Raise (SignatureError
                 ("Method " +:+ qualname method +:+ "("
                  +:+ PyStr.join ", " (parameters method) +:+ ") signature error. "
                  +:+ "The method must accept only one argument of the Event type")),
        w))
  ∧ (length (parameters method) = 1 →
     _validate_signature method = Ok tt
     ∧ ∃ w', add_handler event method w = (Ok tt, w')).
Proof.
  split; intros Hn.
  - rewrite add_handler_rejects by done. unfold lift.
    by rewrite _validate_signature_error.
  - split; [by apply _validate_signature_ok|].
    eexists. by apply add_handler_registers.
Qed.

Lemma add_handler_signature_witness :
  add_handler Example.Event Example.no_args world0
  = (Raise (SignatureError
              "Method test.<locals>.method() signature error. The method must accept only one argument of the Event type"),
     world0)
  ∧ ∃ w', add_handler Example.Event Example.method world0 = (Ok tt, w').
Proof.
  split.
  - apply (proj1 (add_handler_signature Example.Event Example.no_args world0)).
    vm_compute. lia.
  - apply (proj2 (add_handler_signature Example.Event Example.method world0)).
    reflexivity.
Defined.

(** ** The registry after a registration *)

Lemma registered_frame names method : ∀ w,
  Event_attrs (registered names method w) = Event_attrs w
  ∧ allocated (registered names method w) = allocated w
  ∧ trace (registered names method w) = trace w.
Proof.
  unfold registered. induction names as [|n names IH]; intros w; [done|].
  cbn [foldl]. destruct (IH (append_handler n method w).2) as (-> & -> & ->). done.
Qed.

Lemma registered_lookup_notin names method k : ∀ w,
  k ∉ names →
  handlers (registered names method w) !! k = handlers w !! k.
Proof.
  unfold registered. induction names as [|n names IH]; intros w Hk; [done|].
  apply not_elem_of_cons in Hk as [Hne Hk]. cbn [foldl].
  rewrite IH by done. cbn. by rewrite lookup_insert_ne.
Qed.

Lemma registered_lookup_in names method k : ∀ w,
  NoDup names → k ∈ names →
  handlers (registered names method w) !! k
  = Some (default [] (handlers w !! k) ++ [method]).
Proof.
  unfold registered. induction names as [|n names IH]; intros w Hnd Hk.
  - by apply elem_of_nil in Hk.
  - apply NoDup_cons in Hnd as [Hn Hnd]. cbn [foldl].
    apply elem_of_cons in Hk as [->|Hk].
    + fold (registered names method (append_handler n method w).2).
      rewrite registered_lookup_notin by done. cbn. by rewrite lookup_insert_eq.
    + rewrite IH by done. cbn. rewrite lookup_insert_ne; [done|].
      intros ->. done.
Qed.

Lemma leaves_sublist : ∀ cls, sublist (leaves cls) (classes cls).
Proof.
  induction cls as [name identifier params subs IH] using event_class_induction.
  destruct subs as [|sub subs]; [done|].
  change (leaves (EventClass name identifier params (sub :: subs)))
    with (flat_map leaves (sub :: subs)).
  cbn [classes subclasses]. apply sublist_cons.
  induction (sub :: subs) as [|s l IHl]; [done|].
  apply Forall_cons in IH as [Hs Hl]. cbn [flat_map].
  apply sublist_app; auto.
Qed.

Lemma leaves_NoDup cls : NoDup (classes cls) → NoDup (leaves cls).
Proof. intros Hnd. eapply sublist_NoDup; [done|apply leaves_sublist]. Qed.

Lemma flat_map_leaves_sublist subs :
  sublist (flat_map leaves subs) (flat_map classes subs).
Proof.
  induction subs as [|s l IHl]; [done|].
  cbn [flat_map]. apply sublist_app; [apply leaves_sublist|done].
Qed.

Lemma not_own_leaf cls :
  NoDup (classes cls) → subclasses cls ≠ [] → cls_name cls ∉ leaves cls.
Proof.
  destruct cls as [name identifier params [|sub subs]]; [done|].
  intros Hnd _ Hin. cbn [classes subclasses cls_name] in *.
  apply NoDup_cons in Hnd as [Hn _]. apply Hn.
  eapply elem_of_sublist; [exact Hin|].
  apply (flat_map_leaves_sublist (sub :: subs)).
Qed.

(** ** Construction of an event *)

Lemma is_Ok_true {A} (r : result A) : is_Ok r = true → ∃ a, r = Ok a.
Proof. destruct r; [eauto|done]. Qed.

Lemma dict_has_true d k : dict_has d k = true → ∃ v, dict_get d k = Some v.
Proof. unfold dict_has. destruct (dict_get d k); [eauto|done]. Qed.

Lemma find_missing_none (p : string → bool) l :
  forallb p l = true → List.find (λ x, negb (p x)) l = None.
Proof.
  induction l as [|x l IH]; [done|]. cbn [forallb List.find].
  rewrite andb_true_iff. intros [-> Hl]. by apply IH.
Qed.

(** A construction whose payload binds assigns the class attributes; how it
    ends is decided by the parsing alone. *)
Lemma construct_binds ext cls gh requester headers body w :
  binds ext cls headers body = true →
  construct ext cls gh requester headers body w
  = (constructed ext cls gh requester body (allocated w),
     mkWorld (handlers w) (Event_attrs_of ext cls headers body ∪ Event_attrs w)
       (S (allocated w)) (trace w ++ [New (cls_name cls) (allocated w)])).
Proof.
  unfold binds. rewrite !andb_true_iff, negb_true_iff.
  intros [[[[[[[Hclash Hparams] Hsender] Hd] He] Hh] Ht] Hy].
  apply dict_has_true in Hsender as [sender Hsender].
  apply is_Ok_true in Hd as [d Hd]. apply is_Ok_true in He as [e He].
  apply is_Ok_true in Hh as [h Hh]. apply is_Ok_true in Ht as [t Ht].
  apply is_Ok_true in Hy as [y Hy].
  cbn [existsb] in Hclash. rewrite !orb_false_iff in Hclash.
  destruct Hclash as (Hgh & Hrq & Hhd & Hself & _).
  unfold construct. cbn [existsb]. rewrite Hgh, Hrq, Hhd. cbn [orb].
  rewrite bind_run. cbn [new]. rewrite Hself, find_missing_none by done.
  rewrite bind_run.
  unfold Event__init__, Event_attrs_of, constructed, kwargs_of, passed_on, setattr_Event.
  rewrite Hsender.
  rewrite run_lift, Hd, run_modify, run_lift, He, run_modify, run_lift, Hh, run_modify,
    run_lift, Ht, run_modify, run_lift, Hy, !run_modify.
  cbn [handlers Event_attrs allocated trace
       from_Ok from_Ok_int default from_option id list_to_map foldr uncurry fst snd].
  rewrite <- !insert_union_l, (left_id_L ∅ (∪)).
  destruct (default JNull (dict_get _ "repository")) as [|b|z|str|items|members];
    rewrite run_lift; cbn [mbind result_bind];
    try match goal with
        | |- context [_parse_object ext requester "Repository" ?v] =>
            destruct (_parse_object ext requester "Repository" v) as [o|e']; [|done]
        end;
    cbn [mbind result_bind]; rewrite run_lift;
    (destruct (_parse_object ext requester "NamedUser" sender) as [sender'|e']; [|done]);
    unfold mret at 1, M_ret at 1; rewrite run_lift; cbn [mbind result_bind];
    by destruct (init_body ext requester (init_fields cls) body) as [fields|e'].
Qed.

Lemma parses_true ext requester clazz value :
  parses ext clazz value = true →
  _parse_object ext requester clazz value = Ok (parsed requester clazz value).
Proof.
  unfold parses, _parse_object. by destruct (GithubObject__init__ ext clazz value) as [[]|e].
Qed.

Lemma comprehension_parses ext requester clazz items :
  forallb (parses ext clazz) items = true →
  comprehension (_parse_object ext requester clazz) items
  = Ok (map (parsed requester clazz) items).
Proof.
  induction items as [|v items IH]; [done|]. cbn [forallb comprehension map].
  rewrite andb_true_iff. intros [Hv Hitems].
  by rewrite (parses_true _ requester), IH.
Qed.

Lemma init_field_usable ext requester u value :
  usable ext u value = true →
  init_field ext requester u value = Ok (assigned requester u value).
Proof.
  destruct u as [|clazz|clazz]; cbn [usable init_field assigned]; [done| |].
  - intros Hp. by rewrite (parses_true _ requester).
  - destruct (iter value) as [items|e]; [|done]. intros Hp.
    cbn [mbind result_bind]. by rewrite comprehension_parses.
Qed.

Lemma init_body_usable ext requester body init_fields :
  forallb (λ '(name, u), usable ext u (default JNull (dict_get body name))) init_fields = true →
  init_body ext requester init_fields body
  = Ok (map (λ '(name, u), (name, assigned requester u (default JNull (dict_get body name))))
          init_fields).
Proof.
  unfold init_body.
  induction init_fields as [|[name u] l IH]; [done|]. cbn [forallb comprehension map].
  rewrite andb_true_iff. intros [Hu Hl].
  by rewrite init_field_usable, IH.
Qed.

(** On a payload that the constructor accepts, the parsing returns. *)
Lemma constructed_accepts ext cls gh requester headers body n :
  accepts ext cls headers body = true →
  constructed ext cls gh requester body n = Ok (instance cls gh requester body n).
Proof.
  unfold accepts. rewrite !andb_true_iff.
  intros [[[_ Hrepository] Hsender] Hfields].
  unfold constructed, instance. cbv zeta.
  rewrite (parses_true _ requester _ _ Hsender), init_body_usable by done.
  destruct (default JNull (dict_get (passed_on cls body) "repository")) eqn:Hr; try done;
    by rewrite (parses_true _ requester _ _ Hrepository).
Qed.

Lemma accepts_binds ext cls headers body :
  accepts ext cls headers body = true → binds ext cls headers body = true.
Proof. unfold accepts. rewrite !andb_true_iff. tauto. Qed.

Lemma construct_accepts ext cls gh requester headers body w :
  accepts ext cls headers body = true →
  construct ext cls gh requester headers body w
  = (Ok (instance cls gh requester body (allocated w)),
     mkWorld (handlers w) (Event_attrs_of ext cls headers body ∪ Event_attrs w)
       (S (allocated w)) (trace w ++ [New (cls_name cls) (allocated w)])).
Proof.
  intros Hacc. rewrite construct_binds by (by eapply accepts_binds).
  by rewrite (constructed_accepts _ _ _ _ headers).
Qed.

Lemma quiet_refl w : quiet w w.
Proof.
  repeat split; try done. exists []. split; [by rewrite app_nil_r|constructor].
Qed.

Lemma quiet_trans w1 w2 w3 : quiet w1 w2 → quiet w2 w3 → quiet w1 w3.
Proof.
  intros (Hh1 & Ha1 & t1 & Ht1 & Hn1) (Hh2 & Ha2 & t2 & Ht2 & Hn2).
  repeat split.
  - congruence.
  - intros k Hk. rewrite Ha2, Ha1; done.
  - exists (t1 ++ t2). split.
    + by rewrite Ht2, Ht1, app_assoc.
    + by apply Forall_app.
Qed.

Lemma preserves_ret {A} (a : A) : preserves quiet (mret a).
Proof. intros w. apply quiet_refl. Qed.

Lemma preserves_lift {A} (r : result A) : preserves quiet (lift r).
Proof. intros w. apply quiet_refl. Qed.

Lemma preserves_raise {A} e : preserves quiet (raise e : M world A).
Proof. intros w. apply quiet_refl. Qed.

Lemma preserves_bind {A B} (m : M world A) (f : A → M world B) :
  preserves quiet m → (∀ a, preserves quiet (f a)) → preserves quiet (m ≫= f).
Proof.
  intros Hm Hf w. rewrite bind_run. specialize (Hm w).
  destruct (m w) as [[a|e] w1]; [|done].
  eapply quiet_trans; [exact Hm|apply Hf].
Qed.

Lemma preserves_setattr name value :
  name ∈ assigned_attrs → preserves quiet (setattr_Event name value).
Proof.
  intros Hin w. repeat split; cbn.
  - intros k Hk. rewrite lookup_insert_ne; [done|]. by intros ->.
  - exists []. split; [by rewrite app_nil_r|constructor].
Qed.

Lemma preserves_new cls : preserves quiet (new cls).
Proof.
  intros w. repeat split; cbn. eexists. split; [done|]. by repeat constructor.
Qed.

Lemma construct_quiet ext cls gh requester headers body :
  preserves quiet (construct ext cls gh requester headers body).
Proof.
  unfold construct.
  destruct (existsb _ _); [apply preserves_raise|].
  apply preserves_bind; [apply preserves_new|]. intros self.
  destruct (dict_has body "self"); [apply preserves_raise|].
  destruct (List.find _ _); [apply preserves_raise|].
  apply preserves_bind.
  - unfold Event__init__.
    destruct (dict_get _ "sender"); [|apply preserves_raise].
    repeat (apply preserves_bind;
            [first [apply preserves_lift
                   |apply preserves_setattr; unfold assigned_attrs; set_solver]
            |intros ?]).
    apply preserves_ret.
  - intros ev. apply preserves_bind; [apply preserves_lift|]. intros fields.
    apply preserves_ret.
Qed.

(** ** Authentication in [handle] *)

Lemma add_trace_nil w : add_trace w [] = w.
Proof. destruct w. unfold add_trace. cbn. by rewrite app_nil_r. Qed.

Lemma _get_auth_run ext app_id installation_id :
  ∃ r, (∀ w, _get_auth ext app_id installation_id w
             = (r, add_trace w (auth_effects ext app_id installation_id)))
       ∧ (authenticates ext app_id installation_id = true → ∃ auth, r = Ok auth).
Proof.
  unfold _get_auth, auth_effects, authenticates. cbv zeta.
  destruct (truthy (environ ext "CLIENT_ID")).
  - destruct (AppUserAuth__init__ ext _) as [[]|e].
    + eexists. split; [|eauto]. intros w.
      rewrite run_lift. by rewrite add_trace_nil.
    + eexists. split; [|done]. intros w.
      rewrite run_lift. by rewrite add_trace_nil.
  - destruct (private_key ext) as [key|e].
    + destruct (get_access_token ext app_id key installation_id) as [token|e] eqn:Ht.
      * eexists. split; [|eauto]. intros w.
        rewrite run_lift. unfold emit. rewrite run_modify, run_lift, Ht. done.
      * eexists. split; [|done]. intros w.
        rewrite run_lift. unfold emit. rewrite run_modify, run_lift, Ht. done.
    + eexists. split; [|done]. intros w. rewrite run_lift. by rewrite add_trace_nil.
Qed.

(** ** The loop of [handle] *)

Lemma world_eta w : mkWorld (handlers w) (Event_attrs w) (allocated w) (trace w) = w.
Proof. by destruct w. Qed.

Lemma invoke_accepts ext cls gh requester headers body h w :
  accepts ext cls headers body = true →
  invoke ext cls gh requester headers body h w
  = (call h (instance cls gh requester body (allocated w)),
     mkWorld (handlers w) (Event_attrs_of ext cls headers body ∪ Event_attrs w)
       (S (allocated w))
       (trace w ++ [New (cls_name cls) (allocated w); Call h (allocated w)])).
Proof.
  intros Hacc. unfold invoke. rewrite bind_run, construct_accepts by done.
  unfold emit. rewrite run_modify. unfold lift.
  cbn [handlers Event_attrs allocated trace oid instance].
  by rewrite <- app_assoc.
Qed.

(** The loop on a delivery that the constructor accepts: it calls the
    handlers in turn, each on an instance of its own, until one raises. *)
Lemma invoke_loop_accepts ext cls gh requester headers body :
  accepts ext cls headers body = true →
  ∀ hs w,
    for_each (invoke ext cls gh requester headers body) hs w
    = ((dispatch_outcome (instance cls gh requester body) hs (allocated w)).1,
       let k := (dispatch_outcome (instance cls gh requester body) hs (allocated w)).2 in
       mkWorld (handlers w)
         (match k with
          | O => Event_attrs w
          | S _ => Event_attrs_of ext cls headers body ∪ Event_attrs w
          end)
         (allocated w + k)
         (trace w ++ dispatch_trace (cls_name cls) (allocated w) (take k hs))).
Proof.
  intros Hacc. induction hs as [|h hs IH]; intros w.
  - cbn. by rewrite Nat.add_0_r, app_nil_r, world_eta.
  - cbn [for_each]. rewrite bind_run, invoke_accepts by done.
    cbn [dispatch_outcome].
    destruct (call h (instance cls gh requester body (allocated w))) as [[]|e].
    + rewrite IH. cbn [handlers Event_attrs allocated trace].
      destruct (dispatch_outcome _ hs (S (allocated w))) as [r k].
      cbn [fst snd take dispatch_trace]. f_equal. f_equal.
      * destruct k; [done|].
        by rewrite (assoc_L (∪)), (idemp_L (∪)).
      * lia.
      * by rewrite <- app_assoc.
    + cbn [fst snd take dispatch_trace]. f_equal. f_equal. lia.
Qed.

(** The loop on a delivery that binds: with a handler in the list, the class
    attributes hold the values of the delivery afterwards, whether the
    constructions complete and whether the handlers return. *)
Lemma invoke_loop_binds ext cls gh requester headers body :
  binds ext cls headers body = true →
  ∀ hs w,
    Event_attrs (for_each (invoke ext cls gh requester headers body) hs w).2
    = match hs with
      | [] => Event_attrs w
      | _ :: _ => Event_attrs_of ext cls headers body ∪ Event_attrs w
      end.
Proof.
  intros Hb. induction hs as [|h hs IH]; intros w; [done|].
  cbn [for_each]. rewrite bind_run. unfold invoke at 1.
  rewrite bind_run, construct_binds by done.
  destruct (constructed ext cls gh requester body (allocated w)) as [ev|e]; [|done].
  unfold emit. rewrite run_modify. unfold lift.
  destruct (call h ev) as [[]|e]; [|done].
  rewrite IH. cbn [Event_attrs]. destruct hs; [done|].
  by rewrite (assoc_L (∪)), (idemp_L (∪)).
Qed.

Lemma dispatch_outcome_returns ev hs : ∀ n,
  Forall returns hs → dispatch_outcome ev hs n = (Ok tt, length hs).
Proof.
  induction hs as [|h hs IH]; intros n Hr; [done|].
  apply Forall_cons in Hr as [Hh Hr]. cbn [dispatch_outcome].
  by rewrite Hh, IH.
Qed.

(** A handler behind handlers that return is reached. *)
Lemma dispatch_outcome_reaches ev hs1 h hs2 : ∀ n,
  Forall returns hs1 →
  (length hs1 < (dispatch_outcome ev (hs1 ++ h :: hs2) n).2)%nat.
Proof.
  induction hs1 as [|h1 hs1 IH]; intros n Hr.
  - cbn [app dispatch_outcome length].
    destruct (call h _); [|cbn; lia].
    destruct (dispatch_outcome ev hs2 (S n)). cbn. lia.
  - apply Forall_cons in Hr as [Hh Hr]. cbn [app dispatch_outcome length].
    rewrite Hh. specialize (IH (S n) Hr).
    destruct (dispatch_outcome ev (hs1 ++ h :: hs2) (S n)). cbn in *. lia.
Qed.

Lemma dispatch_outcome_bound ev hs : ∀ n,
  ((dispatch_outcome ev hs n).2 ≤ length hs)%nat.
Proof.
  induction hs as [|h hs IH]; intros n; [done|]. cbn [dispatch_outcome length].
  destruct (call h _); [|cbn; lia].
  specialize (IH (S n)). destruct (dispatch_outcome ev hs (S n)). cbn in *. lia.
Qed.

Lemma calls_app t1 t2 : calls (t1 ++ t2) = calls t1 ++ calls t2.
Proof.
  induction t1 as [|[] t1 IH]; cbn [app calls]; try done. by rewrite IH.
Qed.

Lemma calls_dispatch_trace cls hs : ∀ n,
  calls (dispatch_trace cls n hs) = zip hs (seq n (length hs)).
Proof.
  induction hs as [|h hs IH]; intros n; [done|].
  cbn [dispatch_trace calls length seq zip zip_with]. by rewrite IH.
Qed.

Lemma calls_dispatch_trace_handlers cls hs n :
  (calls (dispatch_trace cls n hs)).*1 = hs.
Proof.
  rewrite calls_dispatch_trace. apply fst_zip. by rewrite length_seq.
Qed.

Lemma calls_quiet t : Forall (λ e, is_New e = true) t → calls t = [].
Proof.
  induction 1 as [|e t He _ IH]; [done|]. by destruct e.
Qed.

Lemma count_app p t1 t2 : count p (t1 ++ t2) = count p t1 + count p t2.
Proof. unfold count. by rewrite List.filter_app, length_app. Qed.

Lemma count_dispatch_trace_New cls hs : ∀ n,
  count is_New (dispatch_trace cls n hs) = length hs.
Proof.
  induction hs as [|h hs IH]; intros n; [done|].
  cbn [dispatch_trace]. unfold count in *. cbn. by rewrite IH.
Qed.

Lemma count_dispatch_trace_token cls hs : ∀ n,
  count is_GetAccessToken (dispatch_trace cls n hs) = 0.
Proof.
  induction hs as [|h hs IH]; intros n; [done|].
  cbn [dispatch_trace]. unfold count in *. cbn. by rewrite IH.
Qed.

Lemma effects_of_extends {A} (m : M world A) w t :
  trace (m w).2 = trace w ++ t → effects_of m w = t.
Proof.
  unfold effects_of. intros ->. by rewrite skipn_app, Nat.sub_diag, skipn_all.
Qed.

Lemma count_quiet t : Forall (λ e, is_New e = true) t → count is_GetAccessToken t = 0.
Proof.
  induction 1 as [|e t He _ IH]; [done|]. unfold count in *. by destruct e.
Qed.

(** The loop on any delivery: it keeps the registry, assigns only the class
    attributes of [Event.__init__], calls handlers of the list, from its
    start and in order, and requests no token. *)
Lemma invoke_loop_general ext cls gh requester headers body : ∀ hs w r w',
  for_each (invoke ext cls gh requester headers body) hs w = (r, w') →
  handlers w' = handlers w
  ∧ (∀ k, k ∉ assigned_attrs → Event_attrs w' !! k = Event_attrs w !! k)
  ∧ ∃ t, trace w' = trace w ++ t
         ∧ (calls t).*1 `prefix_of` hs
         ∧ count is_GetAccessToken t = 0.
Proof.
  induction hs as [|h hs IH]; intros w r w' Hrun.
  - injection Hrun as <- <-. repeat split; try done.
    exists []. rewrite app_nil_r. repeat split. by exists [].
  - cbn [for_each] in Hrun. rewrite bind_run in Hrun. unfold invoke in Hrun at 1.
    rewrite bind_run in Hrun.
    pose proof (construct_quiet ext cls gh requester headers body w) as Hq.
    destruct (construct ext cls gh requester headers body w) as [[ev|e] w1];
      destruct Hq as (Hh & Ha & t1 & Ht1 & Hn1); cbn [snd] in Hh, Ha, Ht1.
    + unfold emit in Hrun. rewrite run_modify in Hrun. unfold lift in Hrun.
      destruct (call h ev) as [[]|e].
      * apply IH in Hrun as (Hh' & Ha' & t' & Ht' & Hp' & Hc').
        cbn [handlers Event_attrs trace] in Hh', Ha', Ht'.
        repeat split.
        -- congruence.
        -- intros k Hk. rewrite Ha', Ha; done.
        -- exists (t1 ++ Call h (oid ev) :: t'). repeat split.
           ++ by rewrite Ht', Ht1, <- !app_assoc.
           ++ rewrite calls_app, calls_quiet by done. cbn. by apply prefix_cons.
           ++ rewrite count_app, count_quiet by done. done.
      * injection Hrun as <- <-. cbn [handlers Event_attrs trace].
        repeat split; try done.
        exists (t1 ++ [Call h (oid ev)]). repeat split.
        -- by rewrite Ht1, <- app_assoc.
        -- rewrite calls_app, calls_quiet by done. cbn. apply prefix_cons, prefix_nil.
        -- rewrite count_app, count_quiet by done. done.
    + injection Hrun as <- <-. repeat split; try done.
      exists t1. repeat split; try done.
      * rewrite calls_quiet by done. apply prefix_nil.
      * by apply count_quiet.
Qed.

(** ** [handle], step by step *)

Lemma handle_run ext Event headers body w :
  handle ext Event headers body w
  = match get_event Event headers body with
    | Raise e => (Raise e, w)
    | Ok cls =>
        match subscript headers "X-Github-Hook-Installation-Target-Id" ≫= int ext with
        | Raise e => (Raise e, w)
        | Ok app_id =>
            match (installation ← subscript body "installation";
                   subscript_json installation "id" ≫= int ext) with
            | Raise e => (Raise e, w)
            | Ok installation_id =>
                match _get_auth ext (Some app_id) (Some installation_id) w with
                | (Raise e, w1) => (Raise e, w1)
                | (Ok auth, w1) =>
                    for_each (invoke ext cls (mkGithub auth) (mkRequester auth) headers body)
                      (default [] (handlers w1 !! cls_name cls)) w1
                end
            end
        end
    end.
Proof.
  unfold handle. rewrite run_lift.
  destruct (get_event Event headers body) as [cls|e]; [|done].
  rewrite run_lift.
  destruct (subscript headers _ ≫= int ext) as [app_id|e]; [|done].
  rewrite run_lift.
  destruct (subscript body "installation" ≫= _) as [installation_id|e]; [|done].
  rewrite bind_run.
  destruct (_get_auth ext (Some app_id) (Some installation_id) w) as [[auth|e] w1]; done.
Qed.

Lemma handle_effects ext Event headers body w :
  handlers (handle ext Event headers body w).2 = handlers w
  ∧ (∀ k, k ∉ assigned_attrs →
       Event_attrs (handle ext Event headers body w).2 !! k = Event_attrs w !! k)
  ∧ ∃ t, trace (handle ext Event headers body w).2 = trace w ++ t
    ∧ match get_event Event headers body,
            subscript headers "X-Github-Hook-Installation-Target-Id" ≫= int ext,
            (installation ← subscript body "installation";
             subscript_json installation "id" ≫= int ext) with
      | Ok cls, Ok app_id, Ok installation_id =>
          ∃ t', t = auth_effects ext (Some app_id) (Some installation_id) ++ t'
                ∧ (calls t').*1 `prefix_of` default [] (handlers w !! cls_name cls)
                ∧ count is_GetAccessToken t' = 0
      | _, _, _ => t = []
      end.
Proof.
  rewrite handle_run.
  destruct (get_event Event headers body) as [cls|e].
  2: { repeat split; try done. exists []. by rewrite app_nil_r. }
  destruct (subscript headers _ ≫= int ext) as [app_id|e].
  2: { repeat split; try done. exists []. by rewrite app_nil_r. }
  destruct (subscript body "installation" ≫= _) as [installation_id|e].
  2: { repeat split; try done. exists []. by rewrite app_nil_r. }
  destruct (_get_auth_run ext (Some app_id) (Some installation_id)) as (r & Hr & _).
  rewrite Hr. destruct r as [auth|e].
  - cbn [add_trace handlers].
    destruct (for_each _ _ _) as [r' w'] eqn:Hrun.
    apply invoke_loop_general in Hrun as (Hh & Ha & t' & Ht & Hp & Hc).
    cbn [snd handlers Event_attrs trace] in *.
    repeat split; try done.
    exists (auth_effects ext (Some app_id) (Some installation_id) ++ t').
    split; [by rewrite Ht, app_assoc|]. by exists t'.
  - cbn [snd add_trace handlers Event_attrs trace]. repeat split; try done.
    eexists. split; [done|]. exists []. rewrite app_nil_r. repeat split.
    apply prefix_nil.
Qed.

(** On a deliverable delivery [handle] is its loop, run once the credentials
    are obtained. *)
Lemma handle_deliverable ext Event headers body w cls :
  get_event Event headers body = Ok cls →
  deliverable ext cls headers body = true →
  ∃ app_id installation_id auth,
    subscript headers "X-Github-Hook-Installation-Target-Id" ≫= int ext = Ok app_id
    ∧ (installation ← subscript body "installation";
       subscript_json installation "id" ≫= int ext) = Ok installation_id
    ∧ accepts ext cls headers body = true
    ∧ handle ext Event headers body w
      = for_each (invoke ext cls (mkGithub auth) (mkRequester auth) headers body)
          (default [] (handlers w !! cls_name cls))
          (add_trace w (auth_effects ext (Some app_id) (Some installation_id))).
Proof.
  intros Hg Hd. rewrite handle_run, Hg. unfold deliverable in Hd.
  destruct (subscript headers _ ≫= int ext) as [app_id|e]; [|done].
  destruct (subscript body "installation" ≫= _) as [installation_id|e]; [|done].
  apply andb_true_iff in Hd as [Hauth Hacc].
  destruct (_get_auth_run ext (Some app_id) (Some installation_id)) as (r & Hr & Hok).
  destruct (Hok Hauth) as [auth ->].
  exists app_id, installation_id, auth. rewrite Hr. done.
Qed.

Lemma deliverable_assigns ext cls headers body :
  deliverable ext cls headers body = true → assigns ext cls headers body = true.
Proof.
  unfold deliverable, assigns.
  destruct (subscript headers _ ≫= int ext) as [app_id|e]; [|done].
  destruct (subscript body "installation" ≫= _) as [installation_id|e]; [|done].
  rewrite !andb_true_iff. intros [Hauth Hacc]. split; [done|]. by eapply accepts_binds.
Qed.

(** On a delivery that reaches the loop and binds, with a handler registered,
    [handle] leaves the values of the delivery in the class attributes. *)
Lemma handle_assigns ext Event headers body w cls :
  get_event Event headers body = Ok cls →
  assigns ext cls headers body = true →
  default [] (handlers w !! cls_name cls) ≠ [] →
  Event_attrs (handle ext Event headers body w).2
  = Event_attrs_of ext cls headers body ∪ Event_attrs w.
Proof.
  intros Hg Hd Hhs. rewrite handle_run, Hg. unfold assigns in Hd.
  destruct (subscript headers _ ≫= int ext) as [app_id|e]; [|done].
  destruct (subscript body "installation" ≫= _) as [installation_id|e]; [|done].
  apply andb_true_iff in Hd as [Hauth Hb].
  destruct (_get_auth_run ext (Some app_id) (Some installation_id)) as (r & Hr & Hok).
  destruct (Hok Hauth) as [auth ->]. rewrite Hr.
  cbn [add_trace handlers]. rewrite invoke_loop_binds by done.
  by destruct (default [] (handlers w !! cls_name cls)).
Qed.

Lemma calls_auth_effects ext app_id installation_id :
  calls (auth_effects ext app_id installation_id) = [].
Proof.
  unfold auth_effects. destruct (truthy _); [done|]. by destruct (private_key ext).
Qed.

Lemma count_New_auth_effects ext app_id installation_id :
  count is_New (auth_effects ext app_id installation_id) = 0.
Proof.
  unfold auth_effects. destruct (truthy _); [done|]. by destruct (private_key ext).
Qed.

(** The outcome of [handle] on a deliverable delivery. *)
Lemma handle_outcome ext Event headers body w cls :
  get_event Event headers body = Ok cls →
  deliverable ext cls headers body = true →
  ∃ app_id installation_id auth,
    subscript headers "X-Github-Hook-Installation-Target-Id" ≫= int ext = Ok app_id
    ∧ (installation ← subscript body "installation";
       subscript_json installation "id" ≫= int ext) = Ok installation_id
    ∧ handle ext Event headers body w
      = ((dispatch_outcome (instance cls (mkGithub auth) (mkRequester auth) body)
            (default [] (handlers w !! cls_name cls)) (allocated w)).1,
         let k := (dispatch_outcome (instance cls (mkGithub auth) (mkRequester auth) body)
                     (default [] (handlers w !! cls_name cls)) (allocated w)).2 in
         mkWorld (handlers w)
           (match k with
            | O => Event_attrs w
            | S _ => Event_attrs_of ext cls headers body ∪ Event_attrs w
            end)
           (allocated w + k)
           (trace w ++ auth_effects ext (Some app_id) (Some installation_id)
            ++ dispatch_trace (cls_name cls) (allocated w)
                 (take k (default [] (handlers w !! cls_name cls))))).
Proof.
  intros Hg Hd.
  destruct (handle_deliverable ext Event headers body w cls Hg Hd)
    as (app_id & installation_id & auth & Ha & Hi & Hacc & Hrun).
  exists app_id, installation_id, auth. repeat split; try done.
  rewrite Hrun, invoke_loop_accepts by done.
  cbn [add_trace handlers Event_attrs allocated trace]. by rewrite <- app_assoc.
Qed.

(** ** Dispatch to registered handlers *)

Lemma chain_leaf P path L :
  chain P path L → subclasses L = [] → cls_name L ∈ leaves P.
Proof.
  induction 1 as [c|c sub path d Hin Hc IH]; intros Hl.
  - destruct c as [name identifier params subs]. cbn in *. subst. set_solver.
  - destruct c as [name identifier params subs]. cbn [subclasses] in Hin.
    destruct subs as [|s subs]; [done|].
    change (leaves (EventClass name identifier params (s :: subs)))
      with (flat_map leaves (s :: subs)).
    apply list_elem_of_In, in_flat_map. exists sub. split; [done|].
    apply list_elem_of_In. auto.
Qed.

(** C3.  Registering a handler with one parameter against a class [P] that
    has subclasses appends it to the list of every leaf below [P] and to no
    other list, in particular not to a list of [P] itself.  A deliverable
    delivery classified as one of these leaves then calls the handler
    (the handlers registered there before it returning), and a delivery
    classified as a class that is not one of these leaves does not, unless
    the handler was registered there before. *)
Theorem add_handler_fans_out (ext : externals) (P : event_class) (method : handler) (w : world) :
  NoDup (classes P) →
  subclasses P ≠ [] →
  length (parameters method) = 1 →
  ∃ w',
    add_handler P method w = (Ok tt, w')
    ∧ (∀ L, L ∈ leaves P →
         handlers w' !! L = Some (default [] (handlers w !! L) ++ [method]))
    ∧ (∀ K, K ∉ leaves P → handlers w' !! K = handlers w !! K)
    ∧ handlers w' !! cls_name P = handlers w !! cls_name P
    ∧ (∀ Event headers body L,
         get_event Event headers body = Ok L →
         cls_name L ∈ leaves P →
         deliverable ext L headers body = true →
         Forall returns (default [] (handlers w !! cls_name L)) →
         method ∈ (calls (effects_of (handle ext Event headers body) w')).*1)
    ∧ (∀ Event headers body C,
         get_event Event headers body = Ok C →
         cls_name C ∉ leaves P →
         method ∉ default [] (handlers w !! cls_name C) →
         method ∉ (calls (effects_of (handle ext Event headers body) w')).*1).
Proof.
  intros Hnd Hsub Hsig.
  exists (registered (leaves P) method w).
  pose proof (leaves_NoDup P Hnd) as Hndl.
  split; [by apply add_handler_registers|].
  split; [intros L HL; by apply registered_lookup_in|].
  split; [intros K HK; by apply registered_lookup_notin|].
  split; [apply registered_lookup_notin; by apply not_own_leaf|].
  split.
  - intros Event headers body L Hg HL Hd Hret.
    destruct (handle_outcome ext Event headers body (registered (leaves P) method w) L Hg Hd)
      as (app_id & installation_id & auth & _ & _ & Hrun).
    rewrite registered_lookup_in in Hrun by done. cbn [default from_option id] in Hrun.
    set (old := default [] (handlers w !! cls_name L)) in *.
    set (ev := instance L (mkGithub auth) (mkRequester auth) body) in *.
    pose proof (dispatch_outcome_reaches ev old method []
                  (allocated (registered (leaves P) method w)) Hret) as Hlt.
    pose proof (dispatch_outcome_bound ev (old ++ [method])
                  (allocated (registered (leaves P) method w))) as Hle.
    rewrite length_app in Hle. cbn [length] in Hle.
    rewrite (effects_of_extends _ _ _ (f_equal (λ p, trace p.2) Hrun)).
    rewrite calls_app, calls_auth_effects, app_nil_l, calls_dispatch_trace_handlers.
    rewrite take_ge by (rewrite length_app; cbn [length]; lia).
    set_solver.
  - intros Event headers body C Hg HC Hnot Hin.
    destruct (handle_effects ext Event headers body (registered (leaves P) method w))
      as (_ & _ & t & Ht & Hcase).
    rewrite (effects_of_extends _ _ _ Ht) in Hin. rewrite Hg in Hcase.
    destruct (subscript headers _ ≫= int ext) as [app_id|e].
    2: { subst t. by apply elem_of_nil in Hin. }
    destruct (subscript body "installation" ≫= _) as [installation_id|e].
    2: { subst t. by apply elem_of_nil in Hin. }
    destruct Hcase as (t' & -> & Hp & _).
    rewrite calls_app, calls_auth_effects, app_nil_l in Hin.
    rewrite registered_lookup_notin in Hp by done.
    apply Hnot. destruct Hp as [rest ->]. apply elem_of_app. by left.
Qed.

Lemma add_handler_fans_out_witness :
  let w := (add_handler Example.StatusEvent Example.other world0).2 in
  ∃ w',
    add_handler Example.CheckSuiteEvent Example.method w = (Ok tt, w')
    ∧ handlers w' !! "CheckSuiteCompletedEvent" = Some [Example.method]
    ∧ handlers w' !! "CheckSuiteEvent" = None
    ∧ Example.method
        ∈ (calls (effects_of (handle Example.ext Example.Event Example.headers Example.body)
                    w')).*1
    ∧ (handle Example.ext Example.Event Example.status_headers Example.status_body w').1
      = Ok tt
    ∧ (calls (effects_of (handle Example.ext Example.Event Example.status_headers
                            Example.status_body) w')).*1
      = [Example.other]
    ∧ Example.method
        ∉ (calls (effects_of (handle Example.ext Example.Event Example.status_headers
                                Example.status_body) w')).*1.
Proof.
  intros w.
  destruct (add_handler_fans_out Example.ext Example.CheckSuiteEvent Example.method w)
    as (w' & Hadd & Hin & Hout & Hself & Hcalled & Hnot).
  - by_decide.
  - discriminate.
  - reflexivity.
  - exists w'. split; [exact Hadd|]. split; [|split; [|split; [|split; [|split]]]].
    + apply (Hin "CheckSuiteCompletedEvent"). by_decide.
    + exact Hself.
    + apply (Hcalled Example.Event Example.headers Example.body
               Example.CheckSuiteCompletedEvent).
      * reflexivity.
      * by_decide.
      * reflexivity.
      * constructor.
    + pose proof (f_equal snd Hadd) as Hw'. cbn [snd] in Hw'. rewrite <- Hw'. reflexivity.
    + pose proof (f_equal snd Hadd) as Hw'. cbn [snd] in Hw'. rewrite <- Hw'. reflexivity.
    + apply (Hnot Example.Event Example.status_headers Example.status_body
               Example.StatusEvent).
      * reflexivity.
      * by_decide.
      * intros Hmem. apply list_elem_of_singleton in Hmem.
        discriminate (f_equal qualname Hmem).
Defined.

(** C10.  Nothing removes duplicates: a handler with one parameter
    registered against a class [P] with subclasses and then against a leaf
    [L] below [P] is twice at the end of the list of [L], and a deliverable
    delivery classified as [L] calls it twice (the handlers of the list
    returning). *)
Theorem registrations_not_deduplicated (ext : externals) (P L : event_class)
    (path : list event_class) (method : handler) (w : world) :
  NoDup (classes P) →
  chain P path L →
  subclasses P ≠ [] →
  subclasses L = [] →
  length (parameters method) = 1 →
  ∃ w1 w2,
    add_handler P method w = (Ok tt, w1)
    ∧ add_handler L method w1 = (Ok tt, w2)
    ∧ handlers w2 !! cls_name L
      = Some (default [] (handlers w !! cls_name L) ++ [method; method])
    ∧ (∀ Event headers body,
         get_event Event headers body = Ok L →
         deliverable ext L headers body = true →
         Forall returns (default [] (handlers w !! cls_name L)) →
         returns method →
         (handle ext Event headers body w2).1 = Ok tt
         ∧ (calls (effects_of (handle ext Event headers body) w2)).*1
           = default [] (handlers w !! cls_name L) ++ [method; method]).
Proof.
  intros Hnd Hchain HP HL Hsig.
  pose proof (chain_leaf P path L Hchain HL) as Hleaf.
  exists (registered (leaves P) method w),
         (registered (leaves L) method (registered (leaves P) method w)).
  assert (Hlookup :
    handlers (registered (leaves L) method (registered (leaves P) method w)) !! cls_name L
    = Some (default [] (handlers w !! cls_name L) ++ [method; method])).
  { destruct L as [name identifier params subs]. cbn [subclasses] in HL. subst subs.
    cbn [leaves subclasses cls_name] in *.
    rewrite registered_lookup_in; [|apply NoDup_singleton|set_solver].
    rewrite registered_lookup_in; [|by apply leaves_NoDup|done].
    cbn [default from_option id]. by rewrite <- app_assoc. }
  split; [by apply add_handler_registers|].
  split; [by apply add_handler_registers|].
  split; [done|].
  intros Event headers body Hg Hd Hold Hm.
  destruct (handle_outcome ext Event headers body
              (registered (leaves L) method (registered (leaves P) method w)) L Hg Hd)
    as (app_id & installation_id & auth & _ & _ & Hrun).
  rewrite Hlookup in Hrun. cbn [default from_option id] in Hrun.
  rewrite dispatch_outcome_returns in Hrun.
  2: { apply Forall_app. split; [done|]. by repeat constructor. }
  cbn [fst snd] in Hrun. rewrite firstn_all in Hrun.
  split; [by rewrite Hrun|].
  rewrite (effects_of_extends _ _ _ (f_equal (λ p, trace p.2) Hrun)).
  by rewrite calls_app, calls_auth_effects, app_nil_l, calls_dispatch_trace_handlers.
Qed.

Lemma registrations_not_deduplicated_witness :
  ∃ w1 w2,
    add_handler Example.CheckSuiteEvent Example.method world0 = (Ok tt, w1)
    ∧ add_handler Example.CheckSuiteCompletedEvent Example.method w1 = (Ok tt, w2)
    ∧ handlers w2 !! "CheckSuiteCompletedEvent" = Some [Example.method; Example.method]
    ∧ (calls (effects_of (handle Example.ext Example.Event Example.headers Example.body)
                w2)).*1
      = [Example.method; Example.method].
Proof.
  destruct (registrations_not_deduplicated Example.ext Example.CheckSuiteEvent
              Example.CheckSuiteCompletedEvent
              [Example.CheckSuiteEvent; Example.CheckSuiteCompletedEvent]
              Example.method world0)
    as (w1 & w2 & H1 & H2 & Hlist & Hcalls).
  - by_decide.
  - apply (chain_step _ Example.CheckSuiteCompletedEvent); [by left|apply chain_here].
  - discriminate.
  - reflexivity.
  - reflexivity.
  - exists w1, w2. split; [exact H1|]. split; [exact H2|]. split; [exact Hlist|].
    apply (Hcalls Example.Event Example.headers Example.body).
    + reflexivity.
    + reflexivity.
    + constructor.
    + intros ev. reflexivity.
Defined.

(** C2, as the code has it.  The constructor call is inside the loop: on a
    deliverable delivery whose handlers return, [handle] first obtains the
    credentials and then, for each registered handler in registration order,
    constructs a new instance of the matched class and calls the handler on
    it; there are as many constructions as handlers, and no two handlers
    receive the same instance. *)
Theorem handle_constructs_per_handler (ext : externals) (Event : event_class)
    (headers body : dict) (w : world) (cls : event_class) :
  get_event Event headers body = Ok cls →
  deliverable ext cls headers body = true →
  Forall returns (default [] (handlers w !! cls_name cls)) →
  ∃ app_id installation_id,
    (handle ext Event headers body w).1 = Ok tt
    ∧ effects_of (handle ext Event headers body) w
      = auth_effects ext (Some app_id) (Some installation_id)
        ++ dispatch_trace (cls_name cls) (allocated w)
             (default [] (handlers w !! cls_name cls))
    ∧ count is_New (effects_of (handle ext Event headers body) w)
      = length (default [] (handlers w !! cls_name cls))
    ∧ calls (effects_of (handle ext Event headers body) w)
      = zip (default [] (handlers w !! cls_name cls))
            (seq (allocated w) (length (default [] (handlers w !! cls_name cls)))).
Proof.
  intros Hg Hd Hret.
  destruct (handle_outcome ext Event headers body w cls Hg Hd)
    as (app_id & installation_id & auth & _ & _ & Hrun).
  rewrite dispatch_outcome_returns in Hrun by done.
  cbn [fst snd] in Hrun. rewrite firstn_all in Hrun.
  exists app_id, installation_id.
  rewrite (effects_of_extends _ _ _ (f_equal (λ p, trace p.2) Hrun)).
  split; [by rewrite Hrun|]. split; [done|]. split.
  - by rewrite count_app, count_New_auth_effects, count_dispatch_trace_New.
  - by rewrite calls_app, calls_auth_effects, app_nil_l, calls_dispatch_trace.
Qed.

Lemma handle_constructs_per_handler_witness :
  let w := (add_handler Example.Event Example.method world0).2 in
  (handle Example.ext Example.Event Example.headers Example.body w).1 = Ok tt
  ∧ calls (effects_of (handle Example.ext Example.Event Example.headers Example.body) w)
    = [(Example.method, 0)].
Proof.
  intros w.
  destruct (handle_constructs_per_handler Example.ext Example.Event Example.headers
              Example.body w Example.CheckSuiteCompletedEvent)
    as (app_id & installation_id & Hok & _ & _ & Hcalls).
  - reflexivity.
  - reflexivity.
  - constructor; [|constructor]. intros ev. reflexivity.
  - split; [exact Hok|exact Hcalls].
Defined.

(** C2 as the specification words it fails with two handlers: the event is
    constructed twice, and the second handler gets another instance than the
    first. *)
Lemma handle_constructs_twice :
  let w := (add_handler Example.CheckSuiteCompletedEvent Example.method;;
            add_handler Example.CheckSuiteCompletedEvent Example.other) world0 in
  handlers w.2 !! "CheckSuiteCompletedEvent" = Some [Example.method; Example.other]
  ∧ effects_of (handle Example.ext Example.Event Example.headers Example.body) w.2
    = [GetAccessToken (Some 2%Z) (Some 3%Z);
       New "CheckSuiteCompletedEvent" 0; Call Example.method 0;
       New "CheckSuiteCompletedEvent" 1; Call Example.other 1]
  ∧ count is_New (effects_of (handle Example.ext Example.Event Example.headers Example.body)
                    w.2) ≠ 1.
Proof. repeat split. vm_compute. discriminate. Qed.

(** C7, as the code has it.  [handle] never changes the handler registry, and
    of the class attributes of [Event] it changes at most those that
    [Event.__init__] assigns; but these it does overwrite, for every delivery
    that reaches the loop and binds to the constructor of its class, with at
    least one handler, whether the construction then completes and whether
    the handlers return or raise: afterwards they hold the values of that
    delivery, for whatever runs next. *)
Theorem handle_shared_state (ext : externals) (Event : event_class)
    (headers body : dict) (w : world) :
  handlers (handle ext Event headers body w).2 = handlers w
  ∧ (∀ k, k ∉ assigned_attrs →
       Event_attrs (handle ext Event headers body w).2 !! k = Event_attrs w !! k)
  ∧ (∀ cls,
       get_event Event headers body = Ok cls →
       assigns ext cls headers body = true →
       default [] (handlers w !! cls_name cls) ≠ [] →
       Event_attrs (handle ext Event headers body w).2
       = Event_attrs_of ext cls headers body ∪ Event_attrs w
       ∧ Event_attrs (handle ext Event headers body w).2 !! "_raw_headers"
         = Some (JObj headers)).
Proof.
  destruct (handle_effects ext Event headers body w) as (Hh & Ha & _).
  split; [done|]. split; [done|].
  intros cls Hg Hd Hne.
  rewrite (handle_assigns ext Event headers body w cls Hg Hd Hne).
  split; [done|].
  apply lookup_union_Some_l. reflexivity.
Qed.

Lemma handle_shared_state_witness :
  let w := (add_handler Example.Event Example.failing world0).2 in
  Event_attrs (handle Example.ext Example.Event Example.headers Example.body w).2
    !! "_raw_headers" = Some (JObj Example.headers)
  ∧ Event_attrs (handle Example.ext Example.Event Example.headers Example.body w).2
      !! "installation_id" = Event_attrs w !! "installation_id".
Proof.
  intros w. split.
  - apply (proj2 (proj2 (handle_shared_state Example.ext Example.Event Example.headers
                           Example.body w)) Example.CheckSuiteCompletedEvent).
    + reflexivity.
    + reflexivity.
    + discriminate.
  - apply (proj1 (proj2 (handle_shared_state Example.ext Example.Event Example.headers
                           Example.body w))).
    by_decide.
Defined.

(** C7 as the specification words it fails: a delivery whose handler raises
    leaves its own values in the class attributes of [Event], where the next
    delivery and every lazy requester read them. *)
Lemma handle_overwrites_Event_attributes :
  let w := (add_handler Example.Event Example.failing world0).2 in
  let w' := (handle Example.ext Example.Event Example.headers Example.body w).2 in
  (handle Example.ext Example.Event Example.headers Example.body w).1
  = Raise (UserError "handler failed")
  ∧ Event_attrs w !! "hook_installation_target_id" = Some JNull
  ∧ Event_attrs w' !! "hook_installation_target_id" = Some (JInt 2)
  ∧ Event_attrs w' ≠ Event_attrs w
  ∧ Event_attr_int w "hook_installation_target_id"
    ≠ Event_attr_int w' "hook_installation_target_id".
Proof.
  repeat split.
  - intros H. apply (f_equal (λ m : gmap string json, m !! "hook_installation_target_id")) in H.
    vm_compute in H. discriminate H.
  - vm_compute. discriminate.
Qed.

(** ** The lazy requester *)

Lemma run_on_world_gets {S A B} (g : world → A) (f : A → M (S * world) B) (s : S) w :
  (on_world (gets g) ≫= f) (s, w) = f (g w) (s, w).
Proof. reflexivity. Qed.

Lemma run_on_world_emit {S B} (e : effect) (f : unit → M (S * world) B) (s : S) w :
  (on_world (emit e) ≫= f) (s, w) = f tt (s, add_trace w [e]).
Proof. reflexivity. Qed.

Lemma add_trace_add_trace w t1 t2 :
  add_trace (add_trace w t1) t2 = add_trace w (t1 ++ t2).
Proof. unfold add_trace. cbn. by rewrite app_assoc. Qed.

(** A step that extends the trace by nothing. *)
Ltac exists_nil_trace :=
  match goal with
  | |- context [match ?r with Ok _ => _ | Raise _ => _ end] => destruct r
  | _ => idtac
  end;
  eexists _, (@nil effect); rewrite add_trace_nil; split; reflexivity.

Lemma initialize_run ext self w :
  ∃ r attrs t,
    initialize ext (self, w)
    = (r, (mkLazyRequester (_initialized self) attrs, add_trace w (Initialize :: t)))
    ∧ count is_Initialize t = 0.
Proof.
  unfold initialize. cbv zeta. rewrite run_on_world_emit, bind_run.
  match goal with
  | |- context [let (_, _) := ?m (self, ?w1) in _] =>
      assert (Hauth : ∃ ra t, m (self, w1) = (ra, (self, add_trace w1 t))
                              ∧ count is_Initialize t = 0)
  end.
  { destruct (truthy (environ ext "CLIENT_ID")).
    - rewrite run_lift. destruct (parse ext _) as [date|e]; [|exists_nil_trace].
      rewrite run_lift. exists_nil_trace.
    - rewrite run_lift. destruct (private_key ext) as [key|e]; [|exists_nil_trace].
      rewrite run_on_world_gets, run_on_world_gets, run_on_world_emit, run_lift.
      destruct (get_access_token ext _ key _) as [token|e];
        eexists _, [GetAccessToken _ _]; split; reflexivity. }
  destruct Hauth as (ra & t & -> & Ht). rewrite add_trace_add_trace.
  destruct ra as [auth|e].
  - eexists _, _, t. split; [reflexivity|done].
  - eexists _, (requester_dict self), t. split; [|done]. by destruct self.
Qed.

(** A read that ordinary lookup answers changes nothing. *)
Lemma getattr_found ext fuel item self w v :
  lookup_attr ext self item = Some v →
  getattr ext (S fuel) item (self, w) = (Ok v, (self, w)).
Proof. intros Hl. cbn [getattr]. rewrite run_gets. cbn [fst]. by rewrite Hl. Qed.

(** Once [_initialized] is set, a read of a missing attribute only raises. *)
Lemma getattr_missing ext fuel item self w :
  _initialized self = true →
  lookup_attr ext self item = None →
  getattr ext (S fuel) item (self, w)
  = (Raise (AttributeError ("'LazyRequester' object has no attribute '" +:+ item +:+ "'")),
     (self, w)).
Proof.
  intros Hi Hl. cbn [getattr]. rewrite run_gets. cbn [fst]. by rewrite Hl, Hi.
Qed.

Lemma getattr_initialized ext fuel item self w :
  _initialized self = true →
  (getattr ext (S fuel) item (self, w)).2 = (self, w).
Proof.
  intros Hi. destruct (lookup_attr ext self item) as [v|] eqn:Hl.
  - by rewrite (getattr_found _ _ _ _ _ v).
  - by rewrite getattr_missing.
Qed.

(** The first read of a missing attribute sets the flag and initializes,
    once. *)
Lemma getattr_first ext fuel item self w :
  _initialized self = false →
  lookup_attr ext self item = None →
  ∃ attrs t,
    (getattr ext (S (S fuel)) item (self, w)).2
    = (mkLazyRequester true attrs, add_trace w (Initialize :: t))
    ∧ count is_Initialize t = 0.
Proof.
  intros Hi Hl. cbn [getattr]. rewrite run_gets. cbn [fst]. rewrite Hl, Hi.
  cbn [negb]. rewrite bind_run. cbn [on_self modify].
  rewrite bind_run.
  destruct (initialize_run ext (mkLazyRequester true (requester_dict self)) w)
    as (r & attrs & t & -> & Ht).
  cbn [_initialized]. exists attrs, t. split; [|done].
  destruct r as [[]|e]; [|done].
  exact (getattr_initialized ext fuel item (mkLazyRequester true attrs) _ eq_refl).
Qed.

Lemma count_Initialize_cons t :
  count is_Initialize (Initialize :: t) = S (count is_Initialize t).
Proof. reflexivity. Qed.

(** Any sequence of reads initializes at most once, and not at all on a
    requester that is initialized already. *)
Lemma reads_initialize_once ext fuel items : ∀ self w,
  (2 ≤ fuel)%nat →
  ∃ self' t,
    (reads ext fuel items (self, w)).2 = (self', add_trace w t)
    ∧ (count is_Initialize t ≤ if _initialized self then 0 else 1)%nat
    ∧ (_initialized self = true → _initialized self' = true).
Proof.
  intros self w Hfuel. destruct fuel as [|[|fuel]]; [lia|lia|]. clear Hfuel.
  revert self w. induction items as [|item items IH]; intros self w.
  - exists self, []. rewrite add_trace_nil. repeat split; [|done].
    destruct (_initialized self); cbn; lia.
  - cbn [reads].
    destruct (getattr ext (S (S fuel)) item (self, w)) as [r [self1 w1]] eqn:Hget.
    assert (Hstep : ∃ t1, w1 = add_trace w t1
              ∧ (count is_Initialize t1 ≤ if _initialized self then 0 else 1)%nat
              ∧ (count is_Initialize t1 = 1 → _initialized self1 = true)
              ∧ (_initialized self = true → _initialized self1 = true)).
    { destruct (_initialized self) eqn:Hi.
      - pose proof (getattr_initialized ext (S fuel) item self w Hi) as H.
        rewrite Hget in H. cbn [snd] in H. injection H as -> ->.
        exists []. rewrite add_trace_nil. repeat split; try done; cbn; lia.
      - destruct (lookup_attr ext self item) as [v|] eqn:Hl.
        + rewrite (getattr_found _ _ _ _ _ v) in Hget by done.
          injection Hget as <- <- <-.
          exists []. rewrite add_trace_nil. repeat split; try done; cbn; lia.
        + destruct (getattr_first ext fuel item self w Hi Hl) as (attrs & t & H & Ht).
          rewrite Hget in H. cbn [snd] in H. injection H as -> ->.
          exists (Initialize :: t). rewrite count_Initialize_cons, Ht.
          repeat split; try done. }
    destruct Hstep as (t1 & -> & Hc1 & Hinit1 & Hkeep1).
    destruct (IH self1 (add_trace w t1)) as (self' & t & Hrest & Hc & Hkeep).
    destruct (reads ext (S (S fuel)) items (self1, add_trace w t1)) as [rs s'].
    cbn [snd] in *. subst s'.
    exists self', (t1 ++ t). repeat split.
    + unfold add_trace. cbn. by rewrite app_assoc.
    + rewrite count_app.
      destruct (_initialized self) eqn:Hi.
      * rewrite Hkeep1 in Hc by done. lia.
      * destruct (count is_Initialize t1) as [|[|n]] eqn:Hn.
        -- destruct (_initialized self1); lia.
        -- rewrite Hinit1 in Hc by done. lia.
        -- lia.
    + intros Hi. auto.
Qed.

(** C6.  The requester of every lazy object starts uninitialized.  Whatever
    attributes are read from it, and in whatever order, [initialize] runs at
    most once: the first read of an attribute that ordinary lookup does not
    find sets the flag and runs it; and once the flag is set, a read of an
    attribute that still does not exist raises [AttributeError] and leaves
    the requester and the process state as they are, so nothing is
    initialized or requested again. *)
Theorem lazy_requester_initializes_once (ext : externals) (fuel : nat) :
  (2 ≤ fuel)%nat →
  (∀ requester headers attributes completed,
     _requester (LazyCompletableGithubObject__init__ requester headers attributes completed)
     = LazyRequester__init__)
  ∧ (∀ items w, ∃ self' t,
       (reads ext fuel items (LazyRequester__init__, w)).2 = (self', add_trace w t)
       ∧ (count is_Initialize t ≤ 1)%nat)
  ∧ (∀ item w,
       lookup_attr ext LazyRequester__init__ item = None →
       ∃ attrs t,
         (getattr ext fuel item (LazyRequester__init__, w)).2
         = (mkLazyRequester true attrs, add_trace w (Initialize :: t))
         ∧ count is_Initialize t = 0)
  ∧ (∀ self w item,
       _initialized self = true →
       lookup_attr ext self item = None →
       getattr ext fuel item (self, w)
       = (Raise (AttributeError
                   ("'LazyRequester' object has no attribute '" +:+ item +:+ "'")),
          (self, w))).
Proof.
  intros Hfuel. split; [done|]. split; [|split].
  - intros items w.
    destruct (reads_initialize_once ext fuel items LazyRequester__init__ w Hfuel)
      as (self' & t & Hr & Hc & _).
    by exists self', t.
  - intros item w Hl. destruct fuel as [|[|fuel]]; [lia|lia|].
    by apply getattr_first.
  - intros self w item Hi Hl. destruct fuel as [|fuel]; [lia|].
    by apply getattr_missing.
Qed.

Lemma lazy_requester_initializes_once_witness :
  (∃ self' t,
     (reads Example.ext 2 ["_Requester__base_url"; "nope"; "nope"]
        (LazyRequester__init__, world0)).2 = (self', add_trace world0 t)
     ∧ (count is_Initialize t ≤ 1)%nat)
  ∧ (∃ attrs t,
        (getattr Example.ext 2 "nope" (LazyRequester__init__, world0)).2
        = (mkLazyRequester true attrs, add_trace world0 (Initialize :: t))
        ∧ count is_Initialize t = 0)
  ∧ getattr Example.ext 2 "nope" (mkLazyRequester true ∅, world0)
    = (Raise (AttributeError "'LazyRequester' object has no attribute 'nope'"),
       (mkLazyRequester true ∅, world0)).
Proof.
  pose proof (lazy_requester_initializes_once Example.ext 2 (le_n 2))
    as (_ & Hreads & Hfirst & Hlater).
  split; [|split].
  - apply Hreads.
  - apply Hfirst. reflexivity.
  - apply (Hlater (mkLazyRequester true ∅) world0 "nope"); reflexivity.
Defined.

Example reads_trace :
  reads Example.ext 2 ["requestJsonAndCheck"; "_Requester__base_url"; "nope"; "nope"]
    (LazyRequester__init__, world0)
  = ([Ok JNull; Ok (JStr "https://api.github.com");
      Raise (AttributeError "'LazyRequester' object has no attribute 'nope'");
      Raise (AttributeError "'LazyRequester' object has no attribute 'nope'")],
     (mkLazyRequester true {["_Requester__base_url" := JStr "https://api.github.com"]},
      add_trace world0 [Initialize; GetAccessToken None None])).
Proof. reflexivity. Qed.

(** C5, as the code has it.  Only [LazyRequester] defers the credentials: a
    read that ordinary lookup answers does nothing, and the first read of a
    missing attribute initializes.  [handle] does not use it: it calls
    [_get_auth] before its loop, so that, with no [CLIENT_ID] and a private
    key at hand, the first thing a delivery with its two identifiers does is
    request an installation token, whatever handlers are registered, and it
    requests none after; with a [CLIENT_ID], [handle] requests no token. *)
Theorem handle_authenticates_eagerly (ext : externals) (Event : event_class)
    (headers body : dict) (w : world) :
  (∀ cls app_id installation_id key,
     get_event Event headers body = Ok cls →
     subscript headers "X-Github-Hook-Installation-Target-Id" ≫= int ext = Ok app_id →
     (installation ← subscript body "installation";
      subscript_json installation "id" ≫= int ext) = Ok installation_id →
     truthy (environ ext "CLIENT_ID") = false →
     private_key ext = Ok key →
     ∃ t, effects_of (handle ext Event headers body) w
          = GetAccessToken (Some app_id) (Some installation_id) :: t
          ∧ count is_GetAccessToken t = 0)
  ∧ (truthy (environ ext "CLIENT_ID") = true →
     count is_GetAccessToken (effects_of (handle ext Event headers body) w) = 0)
  ∧ (∀ fuel self item v,
       lookup_attr ext self item = Some v →
       getattr ext (S fuel) item (self, w) = (Ok v, (self, w)))
  ∧ (∀ fuel item,
       lookup_attr ext LazyRequester__init__ item = None →
       ∃ attrs t,
         (getattr ext (S (S fuel)) item (LazyRequester__init__, w)).2
         = (mkLazyRequester true attrs, add_trace w (Initialize :: t))).
Proof.
  destruct (handle_effects ext Event headers body w) as (_ & _ & t & Ht & Hcase).
  rewrite (effects_of_extends _ _ _ Ht).
  split; [|split; [|split]].
  - intros cls app_id installation_id key Hg Ha Hi Hid Hkey.
    rewrite Hg, Ha, Hi in Hcase. destruct Hcase as (t' & -> & _ & Hc).
    unfold auth_effects. rewrite Hid, Hkey. by exists t'.
  - intros Hid.
    destruct (get_event Event headers body) as [cls|e]; [|by subst t].
    destruct (subscript headers _ ≫= int ext) as [app_id|e]; [|by subst t].
    destruct (subscript body "installation" ≫= _) as [installation_id|e]; [|by subst t].
    destruct Hcase as (t' & -> & _ & Hc).
    unfold auth_effects. by rewrite Hid.
  - intros fuel self item v. apply getattr_found.
  - intros fuel item Hl.
    destruct (getattr_first ext fuel item LazyRequester__init__ w eq_refl Hl)
      as (attrs & t' & Hrun & _).
    by exists attrs, t'.
Qed.

Lemma handle_authenticates_eagerly_witness :
  (∃ t, effects_of (handle Example.ext Example.Event Example.headers Example.body) world0
        = GetAccessToken (Some 2%Z) (Some 3%Z) :: t
        ∧ count is_GetAccessToken t = 0)
  ∧ count is_GetAccessToken
      (effects_of (handle Example.ext_user Example.Event Example.headers Example.body)
         world0) = 0
  ∧ getattr Example.ext 1 "requestJsonAndCheck" (LazyRequester__init__, world0)
    = (Ok JNull, (LazyRequester__init__, world0))
  ∧ ∃ attrs t,
      (getattr Example.ext 2 "nope" (LazyRequester__init__, world0)).2
      = (mkLazyRequester true attrs, add_trace world0 (Initialize :: t)).
Proof.
  pose proof (handle_authenticates_eagerly Example.ext Example.Event Example.headers
                Example.body world0) as (Heager & _ & Hfound & Hfirst).
  split; [|split; [|split]].
  - apply (Heager Example.CheckSuiteCompletedEvent 2%Z 3%Z "key"); reflexivity.
  - apply (proj1 (proj2 (handle_authenticates_eagerly Example.ext_user Example.Event
                           Example.headers Example.body world0))).
    reflexivity.
  - apply Hfound. reflexivity.
  - apply Hfirst. reflexivity.
Defined.

(** C5 as the specification words it fails: with no handler registered at
    all, handling a delivery requests an installation token. *)
Lemma handle_requests_token_without_handlers :
  handlers world0 = ∅
  ∧ handle Example.ext Example.Event Example.headers Example.body world0
    = (Ok tt, add_trace world0 [GetAccessToken (Some 2%Z) (Some 3%Z)])
  ∧ count is_GetAccessToken
      (effects_of (handle Example.ext Example.Event Example.headers Example.body) world0)
    ≠ 0.
Proof. repeat split. vm_compute. discriminate. Qed.

(** * Further properties of the code *)

(** ** [Event.match] and [Event.get_event] *)

Lemma match_true_iff cls data :
  match_ cls data = Ok true
  ↔ ∃ identifier, event_identifier cls = Some identifier
      ∧ ∀ attr value, In (attr, value) identifier → data !! attr = Some (JStr value).
Proof.
  split.
  - intros Hm. destruct (event_identifier cls) as [identifier|] eqn:Hi.
    + exists identifier. split; [done|]. by apply (match_satisfied cls data Hm).
    + unfold match_ in Hm. by rewrite Hi in Hm.
  - intros (identifier & Hi & Hall). unfold match_. rewrite Hi. f_equal.
    apply forallb_forall. intros [attr value] Hin.
    rewrite (Hall attr value Hin). apply String.eqb_refl.
Qed.

(** X1.  [match] answers [True] exactly when the class has an identifier
    dictionary and the data has each of its keys with the same string; so a
    class with an empty identifier matches every payload, and a payload that
    matches still matches when it carries more keys. *)
Theorem match_extends (cls : event_class) (data : gmap string json) :
  (match_ cls data = Ok true
   ↔ ∃ identifier, event_identifier cls = Some identifier
       ∧ ∀ attr value, In (attr, value) identifier → data !! attr = Some (JStr value))
  ∧ (event_identifier cls = Some [] → match_ cls data = Ok true)
  ∧ (∀ data', match_ cls data = Ok true → data ⊆ data' → match_ cls data' = Ok true).
Proof.
  split; [apply match_true_iff|]. split.
  - intros Hi. apply match_true_iff. exists []. split; [done|]. intros ? ? [].
  - intros data' Hm Hsub. apply match_true_iff in Hm as (identifier & Hi & Hall).
    apply match_true_iff. exists identifier. split; [done|].
    intros attr value Hin. eapply lookup_weaken; [by apply Hall|done].
Qed.

Lemma match_extends_witness :
  match_ Example.StatusEvent
    (normalize_dicts [[("X-Github-Event", JStr "status")]; [("state", JStr "success")]])
  = Ok true.
Proof.
  apply (proj2 (proj2 (match_extends Example.StatusEvent
                         (normalize_dicts [[("X-Github-Event", JStr "status")]])))).
  - apply (proj2 (proj1 (match_extends Example.StatusEvent
                           (normalize_dicts [[("X-Github-Event", JStr "status")]])))).
    exists [("event", "status")]. split; [reflexivity|].
    intros attr value [[= <- <-]|[]]. reflexivity.
  - apply insert_subseteq. reflexivity.
Defined.

Lemma get_event_loop cls headers body :
  get_event cls headers body
  = for_event cls headers body (normalize_dicts [headers; body]) (subclasses cls).
Proof.
  destruct cls as [name identifier params subs]. rewrite get_event_unfold.
  cbn [subclasses]. set (cls := EventClass name identifier params subs). clearbody cls.
  induction subs as [|s subs IH]; [done|].
  cbn [for_event]. destruct (match_ s _) as [[]|]; [done|apply IH|done].
Qed.

Lemma for_event_skip cls headers body data pre : ∀ rest,
  Forall (λ s, match_ s data = Ok false) pre →
  for_event cls headers body data (pre ++ rest) = for_event cls headers body data rest.
Proof.
  induction pre as [|s pre IH]; intros rest Hpre; [done|].
  apply Forall_cons in Hpre as [Hs Hpre]. cbn [app for_event]. rewrite Hs. by apply IH.
Qed.

(** X2.  The subclasses are tried in definition order and the first one that
    matches decides: when the subclasses before [sub] do not match, the
    result is that of classifying from [sub] if [sub] matches, and the
    exception of [sub.match] if that raises; when no subclass matches,
    the result is the class itself. *)
Theorem get_event_first_match (cls sub : event_class) (pre post : list event_class)
    (headers body : dict) :
  subclasses cls = pre ++ sub :: post →
  Forall (λ s, match_ s (normalize_dicts [headers; body]) = Ok false) pre →
  (match_ sub (normalize_dicts [headers; body]) = Ok true →
     get_event cls headers body = get_event sub headers body)
  ∧ (∀ e, match_ sub (normalize_dicts [headers; body]) = Raise e →
       get_event cls headers body = Raise e)
  ∧ (match_ sub (normalize_dicts [headers; body]) = Ok false →
     Forall (λ s, match_ s (normalize_dicts [headers; body]) = Ok false) post →
     get_event cls headers body = Ok cls).
Proof.
  intros Hsubs Hpre. rewrite get_event_loop, Hsubs, for_event_skip by done.
  cbn [for_event]. split; [|split].
  - by intros ->.
  - by intros e ->.
  - intros -> Hpost. rewrite <- (app_nil_r post), for_event_skip by done. done.
Qed.

Lemma get_event_first_match_witness :
  get_event Example.Event [("X-Github-Event", JStr "status")] []
  = get_event Example.StatusEvent [("X-Github-Event", JStr "status")] [].
Proof.
  apply (proj1 (get_event_first_match Example.Event Example.StatusEvent
                  [Example.CheckSuiteEvent] [] [("X-Github-Event", JStr "status")] []
                  eq_refl ltac:(by repeat constructor))).
  reflexivity.
Defined.

Lemma match_raises cls data e :
  match_ cls data = Raise e →
  e = AttributeError "'NoneType' object has no attribute 'items'".
Proof. unfold match_. destruct (event_identifier cls); [done|]. by intros [= <-]. Qed.

(** X3.  On any hierarchy, also one with classes that declare no identifier,
    [get_event] either raises the [AttributeError] of [None.items()], or
    returns a class reached from the start through subclasses that each
    match, none of whose own subclasses matches, and from which classifying
    again returns the same class. *)
Theorem get_event_outcome (cls : event_class) (headers body : dict) :
  match get_event cls headers body with
  | Ok c =>
      ∃ path,
        chain cls (cls :: path) c
        ∧ Forall (λ x, match_ x (normalize_dicts [headers; body]) = Ok true) path
        ∧ (∀ s, In s (subclasses c) → match_ s (normalize_dicts [headers; body]) = Ok false)
        ∧ get_event c headers body = Ok c
  | Raise e => e = AttributeError "'NoneType' object has no attribute 'items'"
  end.
Proof.
  set (data := normalize_dicts [headers; body]).
  induction cls as [name identifier params subs IH] using event_class_induction.
  set (cls := EventClass name identifier params subs).
  assert (Hloop : ∀ l pre, subs = pre ++ l →
            Forall (λ s, match_ s data = Ok false) pre →
            match for_event cls headers body data l with
            | Ok c =>
                ∃ path,
                  chain cls (cls :: path) c
                  ∧ Forall (λ x, match_ x data = Ok true) path
                  ∧ (∀ s, In s (subclasses c) → match_ s data = Ok false)
                  ∧ get_event c headers body = Ok c
            | Raise e => e = AttributeError "'NoneType' object has no attribute 'items'"
            end).
  { induction l as [|s l IHl]; intros pre Hsubs Hpre.
    - cbn [for_event]. exists []. rewrite app_nil_r in Hsubs. subst pre.
      split; [constructor|]. split; [constructor|]. split.
      + intros s Hs. rewrite Forall_forall in Hpre. apply Hpre.
        by apply list_elem_of_In.
      + rewrite get_event_loop. fold data. cbn [subclasses cls].
        rewrite <- (app_nil_r subs), for_event_skip by done. done.
    - cbn [for_event]. destruct (match_ s data) as [[]|e] eqn:Hm.
      + assert (Hin : In s subs).
        { rewrite Hsubs. apply in_or_app. right. by left. }
        rewrite Forall_forall in IH. specialize (IH s (proj2 (list_elem_of_In _ _) Hin)).
        destruct (get_event s headers body) as [c|e]; [|done].
        destruct IH as (path & Hc & Hp & Hstop & Hidem).
        exists (s :: path). split; [by apply chain_step with (sub := s)|].
        split; [by constructor|]. done.
      + apply (IHl (pre ++ [s])).
        * by rewrite <- app_assoc.
        * apply Forall_app. split; [done|]. by constructor.
      + by apply match_raises in Hm. }
  rewrite get_event_loop. fold data. cbn [subclasses cls].
  apply (Hloop subs []); [done|constructor].
Qed.

(** X4.  The result depends on the headers and the body only through their
    normalized union: two deliveries whose unions agree, for instance with
    header names in another case or without the ["X-Github-"] prefix, are
    classified alike. *)
Theorem get_event_normalized (cls : event_class) (headers body headers' body' : dict) :
  normalize_dicts [headers; body] = normalize_dicts [headers'; body'] →
  get_event cls headers body = get_event cls headers' body'.
Proof.
  intros Heq.
  induction cls as [name identifier params subs IH] using event_class_induction.
  rewrite !get_event_loop, <- Heq. cbn [subclasses].
  set (cls := EventClass name identifier params subs). clearbody cls.
  induction subs as [|s subs IHs]; [done|].
  apply Forall_cons in IH as [Hs Hsubs]. cbn [for_event].
  destruct (match_ s _) as [[]|]; [done|by apply IHs|done].
Qed.

Lemma get_event_normalized_witness :
  get_event Example.Event Example.headers Example.body
  = get_event Example.Event
      [("x-github-hook-id", JStr "1"); ("X-GITHUB-EVENT", JStr "check_suite");
       ("hook installation-target-id", JStr "2");
       ("Hook-Installation-Target-Type", JStr "type"); ("delivery", JStr "a1b2c3d4")]
      Example.body.
Proof. apply get_event_normalized. by apply map_eq; intros k; vm_compute. Defined.

(** ** [Event.normalize_dicts]: which value a key gets *)

Lemma normalize_items_lookup d : ∀ (u : gmap string json) k,
  normalize_items u d !! k
  = match last_value d k with Some v => Some v | None => u !! k end.
Proof.
  unfold normalize_items. induction d as [|[attr value] d IH]; intros u k; [done|].
  cbn [foldl last_value]. rewrite IH.
  destruct (last_value d k); [done|].
  destruct (String.eqb_spec (normalize_key attr) k) as [->|Hne].
  - by rewrite lookup_insert_eq.
  - by rewrite lookup_insert_ne.
Qed.

Lemma last_value_app d1 d2 k :
  last_value (d1 ++ d2) k
  = match last_value d2 k with Some v => Some v | None => last_value d1 k end.
Proof.
  induction d1 as [|[attr value] d1 IH]; cbn [app last_value].
  - by destruct (last_value d2 k).
  - rewrite IH. by destruct (last_value d2 k).
Qed.

Lemma normalize_dicts_lookup_concat dicts k :
  normalize_dicts dicts !! k = last_value (concat dicts) k.
Proof.
  unfold normalize_dicts.
  assert (H : ∀ (u : gmap string json),
            foldl normalize_items u dicts !! k
            = match last_value (concat dicts) k with Some v => Some v | None => u !! k end).
  { induction dicts as [|d dicts IH]; intros u; [done|].
    cbn [foldl concat]. rewrite IH, last_value_app, normalize_items_lookup.
    by destruct (last_value (concat dicts) k). }
  rewrite H, lookup_empty. by destruct (last_value (concat dicts) k).
Qed.

Lemma last_value_Some d k v :
  last_value d k = Some v → ∃ attr, In (attr, v) d ∧ normalize_key attr = k.
Proof.
  induction d as [|[attr value] d IH]; [done|]. cbn [last_value].
  destruct (last_value d k) as [v'|].
  - intros [= <-]. destruct (IH eq_refl) as (a & Hin & Ha). exists a. split; [by right|done].
  - destruct (String.eqb_spec (normalize_key attr) k) as [Hk|]; [|done].
    intros [= <-]. exists attr. split; [by left|done].
Qed.

Lemma last_value_is_Some d attr v :
  In (attr, v) d → is_Some (last_value d (normalize_key attr)).
Proof.
  induction d as [|[attr' value] d IH]; [done|]. cbn [last_value].
  intros [[= -> ->]|Hin].
  - destruct (last_value d _); [done|]. by rewrite String.eqb_refl.
  - destruct (IH Hin) as [v' ->]. done.
Qed.

(** X5.  The union gives each normalized key the value of the last item, in
    the order of the dictionaries and of their items, whose key normalizes
    to it: an item of the body overrides a header with the same normalized
    key (a body field ["event"] replaces the [X-Github-Event] header). *)
Theorem normalize_dicts_last_wins :
  (∀ dicts k, normalize_dicts dicts !! k = last_value (concat dicts) k)
  ∧ (∀ headers body k,
       normalize_dicts [headers; body] !! k
       = match last_value body k with
         | Some v => Some v
         | None => last_value headers k
         end)
  ∧ (∀ headers body attr value,
       last_value body (normalize_key attr) = None →
       normalize_dicts [headers ++ [(attr, value)]; body] !! normalize_key attr = Some value).
Proof.
  split; [apply normalize_dicts_lookup_concat|]. split.
  - intros headers body k. rewrite normalize_dicts_lookup_concat.
    cbn [concat]. by rewrite app_nil_r, last_value_app.
  - intros headers body attr value Hb. rewrite normalize_dicts_lookup_concat.
    cbn [concat]. rewrite app_nil_r, !last_value_app, Hb.
    cbn [last_value]. by rewrite String.eqb_refl.
Qed.

Lemma normalize_dicts_last_wins_witness :
  normalize_dicts [[] ++ [("X-Github-Event", JStr "status")]; [("action", JStr "created")]]
    !! normalize_key "X-Github-Event" = Some (JStr "status").
Proof. apply (proj2 (proj2 normalize_dicts_last_wins)). reflexivity. Defined.

Example body_overrides_header :
  normalize_dicts [[("X-Github-Event", JStr "status")]; [("event", JStr "push")]] !! "event"
  = Some (JStr "push").
Proof. reflexivity. Qed.

(** X6.  Normalization loses no key and invents no value: the normalized key
    of every item is a key of the union, and every value of the union is the
    value of an item whose key normalizes to its key. *)
Theorem normalize_dicts_keys_and_values (dicts : list dict) :
  (∀ d attr value, In d dicts → In (attr, value) d →
     is_Some (normalize_dicts dicts !! normalize_key attr))
  ∧ (∀ k v, normalize_dicts dicts !! k = Some v →
       ∃ d attr, In d dicts ∧ In (attr, v) d ∧ normalize_key attr = k).
Proof.
  split.
  - intros d attr value Hd Hin. rewrite normalize_dicts_lookup_concat.
    apply (last_value_is_Some _ attr value). apply in_concat. eauto.
  - intros k v Hk. rewrite normalize_dicts_lookup_concat in Hk.
    apply last_value_Some in Hk as (attr & Hin & Hattr).
    apply in_concat in Hin as (d & Hd & Hin). eauto.
Qed.

Lemma normalize_dicts_keys_and_values_witness :
  is_Some (normalize_dicts [Example.headers; Example.body] !! normalize_key "X-Github-Hook-Id")
  ∧ ∃ d attr, In d [Example.headers; Example.body] ∧ In (attr, JStr "1") d
              ∧ normalize_key attr = "hook_id".
Proof.
  split.
  - apply (proj1 (normalize_dicts_keys_and_values [Example.headers; Example.body])
             Example.headers "X-Github-Hook-Id" (JStr "1")).
    + by left.
    + right. right. by left.
  - apply (proj2 (normalize_dicts_keys_and_values [Example.headers; Example.body])).
    reflexivity.
Defined.

(** ** [Event.fix_attributes], applied again *)

Lemma startswith_longer s p q :
  PyStr.startswith s (p +:+ q) = true → PyStr.startswith s p = true.
Proof.
  unfold PyStr.startswith. revert s. induction p as [|a p IH]; intros s.
  - by destruct s.
  - destruct s as [|c s]; [done|]. rewrite PyStrFacts.append_cons. cbn [String.prefix].
    destruct (ascii_dec a c); [apply IH|done].
Qed.

(** X7.  The rewrite is idempotent on the urls it is meant for: when the
    ["url"] starts with ["https://github.com"] the rewritten url starts with
    the API host, which a second call leaves alone; and a url that does not
    start with ["https://github"] is not changed by any number of calls. *)
Theorem fix_attributes_idempotent (attributes : gmap string json) (url : string) :
  attributes !! "url" = Some (JStr url) →
  PyStr.startswith url "https://github.com" = true
  ∨ PyStr.startswith url "https://github" = false →
  ∃ attributes',
    fix_attributes attributes = Ok attributes'
    ∧ fix_attributes attributes' = Ok attributes'.
Proof.
  intros Hurl [Hweb|Hother].
  - pose proof (startswith_longer url "https://github" ".com" Hweb) as Hs.
    eexists. split.
    + unfold fix_attributes. rewrite Hurl. cbn [default from_option id]. by rewrite Hs.
    + unfold fix_attributes. rewrite lookup_insert_eq. cbn [default from_option id].
      unfold PyStr.startswith in Hweb. apply PyStrFacts.prefix_split in Hweb.
      rewrite Hweb at 1. rewrite PyStrFacts.replace_prefix.
      replace (PyStr.startswith ("https://api.github.com/repos" +:+ _) "https://github")
        with false by reflexivity.
      done.
  - exists attributes.
    assert (H : fix_attributes attributes = Ok attributes).
    { unfold fix_attributes. rewrite Hurl. cbn [default from_option id]. by rewrite Hother. }
    done.
Qed.

Lemma fix_attributes_idempotent_witness :
  ∃ attributes',
    fix_attributes {["url" := JStr "https://github.com/potato"]} = Ok attributes'
    ∧ fix_attributes attributes' = Ok attributes'.
Proof.
  apply (fix_attributes_idempotent _ "https://github.com/potato").
  - reflexivity.
  - left. reflexivity.
Defined.

(** ** [add_handler]: what a registration does to the registry *)

Lemma grown_refl w : grown w w.
Proof. by intros k. Qed.

Lemma grown_trans w1 w2 w3 : grown w1 w2 → grown w2 w3 → grown w1 w3.
Proof.
  intros H12 H23 k. destruct (H12 k) as [m1 H1], (H23 k) as [m2 H2].
  exists (m1 ++ m2). by rewrite H2, H1, app_assoc.
Qed.

Lemma registered_grown names method : ∀ w, grown w (registered names method w).
Proof.
  unfold registered. induction names as [|n names IH]; intros w; [apply grown_refl|].
  cbn [foldl]. eapply grown_trans; [|apply IH].
  intros k. cbn. destruct (decide (n = k)) as [->|Hne].
  - rewrite lookup_insert_eq. cbn. by apply prefix_app_r.
  - by rewrite lookup_insert_ne.
Qed.

(** Whatever its outcome, [add_handler] leaves the state as it was or as
    [registered] describes. *)
Lemma add_handler_state event method w :
  (add_handler event method w).2 = w
  ∨ (add_handler event method w).2 = registered (leaves event) method w.
Proof.
  destruct (decide (length (parameters method) = 1)) as [Hn|Hn].
  - right. by rewrite add_handler_registers.
  - left. by rewrite add_handler_rejects.
Qed.

Lemma registered_lookup_Some names method k : ∀ w hs,
  handlers w !! k = Some hs →
  ∃ more, handlers (registered names method w) !! k = Some (hs ++ more).
Proof.
  unfold registered. induction names as [|n names IH]; intros w hs Hk.
  - exists []. by rewrite app_nil_r.
  - cbn [foldl]. destruct (decide (n = k)) as [->|Hne].
    + destruct (IH (append_handler k method w).2 (hs ++ [method])) as [more Hmore].
      { cbn. rewrite lookup_insert_eq, Hk. done. }
      exists ([method] ++ more). by rewrite Hmore, <- app_assoc.
    + apply IH. cbn. by rewrite lookup_insert_ne.
Qed.

(** X8.  The registry is append-only: whatever the class, the handler and
    the outcome, after [add_handler] every list of the registry starts with
    the list it was before, and the class attributes of [Event] are
    untouched. *)
Theorem add_handler_append_only (event : event_class) (method : handler) (w : world) :
  grown w (add_handler event method w).2
  ∧ Event_attrs (add_handler event method w).2 = Event_attrs w
  ∧ (∀ k hs, handlers w !! k = Some hs →
       ∃ more, handlers (add_handler event method w).2 !! k = Some (hs ++ more)).
Proof.
  destruct (add_handler_state event method w) as [-> | ->].
  - split; [apply grown_refl|]. split; [done|].
    intros k hs Hk. exists []. by rewrite app_nil_r.
  - split; [apply registered_grown|]. split; [apply registered_frame|].
    intros k hs Hk. by apply registered_lookup_Some.
Qed.

Lemma add_handler_append_only_witness :
  ∃ more,
    handlers (add_handler Example.Event Example.other
                (add_handler Example.CheckSuiteEvent Example.method world0).2).2
      !! "CheckSuiteCompletedEvent"
    = Some ([Example.method] ++ more).
Proof.
  apply (proj2 (proj2 (add_handler_append_only Example.Event Example.other
                         (add_handler Example.CheckSuiteEvent Example.method world0).2))).
  reflexivity.
Defined.

(** ** The hierarchy: classes, leaves and chains *)

Lemma chain_in_classes c path d : chain c path d → cls_name d ∈ classes c.
Proof.
  induction 1 as [c|c sub path d Hin Hc IH].
  - destruct c. cbn. apply elem_of_cons. by left.
  - destruct c as [name identifier params subs]. cbn [classes subclasses] in *.
    apply elem_of_cons. right. apply list_elem_of_In, in_flat_map.
    exists sub. split; [done|]. by apply list_elem_of_In.
Qed.

Lemma leaves_node name identifier params subs :
  subs ≠ [] → leaves (EventClass name identifier params subs) = flat_map leaves subs.
Proof. by destruct subs. Qed.

Lemma chain_leaves c path d : chain c path d → leaves d ⊆ leaves c.
Proof.
  induction 1 as [c|c sub path d Hin Hc IH]; [done|].
  destruct c as [name identifier params subs]. cbn [subclasses] in Hin.
  rewrite leaves_node by (by destruct subs).
  intros x Hx. apply list_elem_of_In, in_flat_map. exists sub. split; [done|].
  apply list_elem_of_In. auto.
Qed.

Lemma flat_map_classes_NoDup subs sub :
  NoDup (flat_map classes subs) → In sub subs → NoDup (classes sub).
Proof.
  induction subs as [|s subs IH]; [done|]. cbn [flat_map].
  intros Hnd [->|Hin].
  - by apply NoDup_app in Hnd as (? & _ & _).
  - apply NoDup_app in Hnd as (_ & _ & ?). auto.
Qed.

Lemma flat_map_classes_disjoint subs s1 s2 x :
  NoDup (flat_map classes subs) → In s1 subs → In s2 subs →
  x ∈ classes s1 → x ∈ classes s2 → s1 = s2.
Proof.
  induction subs as [|s subs IH]; [done|]. cbn [flat_map].
  intros Hnd H1 H2 Hx1 Hx2. apply NoDup_app in Hnd as (_ & Hdisj & Hnd).
  assert (Hflat : ∀ s', In s' subs → x ∈ classes s' → x ∈ flat_map classes subs).
  { intros s' Hs' Hx. apply list_elem_of_In, in_flat_map. exists s'.
    split; [done|]. by apply list_elem_of_In. }
  destruct H1 as [->|H1], H2 as [->|H2]; [done| | |by apply IH].
  - exfalso. apply (Hdisj x Hx1). eauto.
  - exfalso. apply (Hdisj x Hx2). eauto.
Qed.

(** A class with subclasses is not among the leaves of a hierarchy in which
    the classes are distinct. *)
Lemma inner_class_not_leaf Event path P :
  chain Event path P →
  NoDup (classes Event) →
  subclasses P ≠ [] →
  cls_name P ∉ leaves Event.
Proof.
  induction 1 as [c|c sub path d Hin Hc IH]; intros Hnd HP.
  - by apply not_own_leaf.
  - destruct c as [name identifier params subs]. cbn [subclasses] in Hin.
    cbn [classes subclasses] in Hnd. apply NoDup_cons in Hnd as [_ Hnd].
    rewrite leaves_node by (by destruct subs).
    intros Hleaf. apply list_elem_of_In, in_flat_map in Hleaf as (s' & Hs' & Hx).
    apply list_elem_of_In in Hx.
    assert (s' = sub) as ->.
    { apply (flat_map_classes_disjoint subs s' sub (cls_name d)); try done.
      - eapply elem_of_sublist; [exact Hx|apply leaves_sublist].
      - by eapply chain_in_classes. }
    apply IH; [by eapply flat_map_classes_NoDup|done|done].
Qed.

Lemma get_event_chain : ∀ cls headers body c,
  get_event cls headers body = Ok c → ∃ path, chain cls path c.
Proof.
  intros cls headers body.
  induction cls as [name identifier params subs IH] using event_class_induction.
  intros c. rewrite get_event_loop. cbn [subclasses].
  set (cls := EventClass name identifier params subs).
  assert (Hloop : ∀ l, incl l subs →
            for_event cls headers body (normalize_dicts [headers; body]) l = Ok c →
            ∃ path, chain cls path c).
  { induction l as [|s l IHl]; intros Hincl; cbn [for_event].
    - intros [= <-]. exists [cls]. constructor.
    - assert (Hs : In s subs) by (apply Hincl; by left).
      destruct (match_ s _) as [[]|]; [| |done].
      + intros Hg. rewrite Forall_forall in IH.
        destruct (IH s (proj2 (list_elem_of_In _ _) Hs) c Hg) as [path Hpath].
        exists (cls :: path). by apply chain_step with (sub := s).
      + apply IHl. intros x Hx. apply Hincl. by right. }
  apply Hloop, incl_refl.
Qed.

Lemma registered_is_Some names method k : ∀ w,
  is_Some (handlers (registered names method w) !! k) →
  is_Some (handlers w !! k) ∨ k ∈ names.
Proof.
  unfold registered. induction names as [|n names IH]; intros w Hk; [by left|].
  cbn [foldl] in Hk. apply IH in Hk as [Hk|Hk].
  - cbn in Hk. destruct (decide (n = k)) as [->|Hne].
    + right. apply elem_of_cons. by left.
    + rewrite lookup_insert_ne in Hk by done. by left.
  - right. apply elem_of_cons. by right.
Qed.

Lemma add_handler_keyed_by_leaves Event path event method w :
  chain Event path event →
  keyed_by_leaves Event w →
  keyed_by_leaves Event (add_handler event method w).2.
Proof.
  intros Hc Hw. destruct (add_handler_state event method w) as [-> | ->]; [done|].
  intros k Hk. apply registered_is_Some in Hk as [Hk|Hk]; [by apply Hw|].
  by eapply chain_leaves.
Qed.

(** X9.  Only leaves become keys of the registry: from a registry keyed by
    leaves of the hierarchy (the empty one, say), any sequence of
    registrations against classes of the hierarchy, with whatever handlers
    and whether they are accepted or rejected, leaves a registry keyed by
    leaves. *)
Theorem add_handlers_keyed_by_leaves (Event : event_class)
    (registrations : list (event_class * handler)) (w : world) :
  keyed_by_leaves Event w →
  Forall (λ registration, ∃ path, chain Event path registration.1) registrations →
  keyed_by_leaves Event (add_handlers registrations w).2.
Proof.
  unfold add_handlers. revert w.
  induction registrations as [|[event method] regs IH]; intros w Hw Hregs; [done|].
  apply Forall_cons in Hregs as [[path Hc] Hregs]. cbn [fst] in Hc.
  cbn [for_each]. rewrite bind_run. cbn [fst snd].
  pose proof (add_handler_keyed_by_leaves Event path event method w Hc Hw) as Hstep.
  destruct (add_handler event method w) as [[[]|e] w1]; [|done].
  by apply IH.
Qed.

Lemma add_handlers_keyed_by_leaves_witness :
  keyed_by_leaves Example.Event
    (add_handlers [(Example.CheckSuiteEvent, Example.method);
                   (Example.Event, Example.no_args);
                   (Example.StatusEvent, Example.other)] world0).2.
Proof.
  apply add_handlers_keyed_by_leaves.
  - intros k [x Hx]. done.
  - repeat constructor.
    + exists [Example.Event; Example.CheckSuiteEvent].
      apply (chain_step _ Example.CheckSuiteEvent); [by left|constructor].
    + exists [Example.Event]. constructor.
    + exists [Example.Event; Example.StatusEvent].
      apply (chain_step _ Example.StatusEvent); [right; by left|constructor].
Defined.

(** ** [handle]: deliveries that reach no handler *)

Lemma handle_unregistered ext Event headers body w cls :
  get_event Event headers body = Ok cls →
  default [] (handlers w !! cls_name cls) = [] →
  ∃ r t,
    handle ext Event headers body w = (r, add_trace w t)
    ∧ calls t = []
    ∧ count is_New t = 0
    ∧ (∀ app_id installation_id,
         subscript headers "X-Github-Hook-Installation-Target-Id" ≫= int ext = Ok app_id →
         (installation ← subscript body "installation";
          subscript_json installation "id" ≫= int ext) = Ok installation_id →
         authenticates ext (Some app_id) (Some installation_id) = true →
         r = Ok tt ∧ t = auth_effects ext (Some app_id) (Some installation_id)).
Proof.
  intros Hg Hhs. rewrite handle_run, Hg.
  destruct (subscript headers _ ≫= int ext) as [app_id|e].
  2: { exists (Raise e), []. rewrite add_trace_nil. repeat split; intros; discriminate. }
  destruct (subscript body "installation" ≫= _) as [installation_id|e].
  2: { exists (Raise e), []. rewrite add_trace_nil. repeat split; intros; discriminate. }
  destruct (_get_auth_run ext (Some app_id) (Some installation_id)) as (r & -> & Hok).
  destruct r as [auth|e].
  - cbn [add_trace handlers]. rewrite Hhs. cbn [for_each].
    exists (Ok tt), (auth_effects ext (Some app_id) (Some installation_id)).
    split; [done|]. split; [apply calls_auth_effects|].
    split; [apply count_New_auth_effects|].
    by intros ? ? [= <-] [= <-] _.
  - exists (Raise e), (auth_effects ext (Some app_id) (Some installation_id)).
    split; [done|]. split; [apply calls_auth_effects|].
    split; [apply count_New_auth_effects|].
    intros ? ? [= <-] [= <-] Hauth. by destruct (Hok Hauth).
Qed.

(** X10.  When no handler is registered for the class of a delivery,
    [handle] constructs no event and calls nothing, and changes nothing of
    the process state; the payload is then never checked against the
    constructor, and a delivery with its two identifiers and obtainable
    credentials returns normally whatever else it lacks. *)
Theorem handle_without_handlers (ext : externals) (Event : event_class)
    (headers body : dict) (w : world) (cls : event_class) :
  get_event Event headers body = Ok cls →
  default [] (handlers w !! cls_name cls) = [] →
  ∃ r t,
    handle ext Event headers body w = (r, add_trace w t)
    ∧ calls t = []
    ∧ count is_New t = 0
    ∧ (∀ app_id installation_id,
         subscript headers "X-Github-Hook-Installation-Target-Id" ≫= int ext = Ok app_id →
         (installation ← subscript body "installation";
          subscript_json installation "id" ≫= int ext) = Ok installation_id →
         authenticates ext (Some app_id) (Some installation_id) = true →
         r = Ok tt ∧ t = auth_effects ext (Some app_id) (Some installation_id)).
Proof.
  intros Hg Hhs.
  destruct (handle_unregistered ext Event headers body w cls Hg Hhs) as (r & t & H).
  by exists r, t.
Qed.

Lemma handle_without_handlers_witness :
  accepts Example.ext Example.StatusEvent
    [("X-Github-Event", JStr "status"); ("X-Github-Hook-Installation-Target-Id", JStr "2")]
    [("installation", JObj [("id", JInt 3)])] = false
  ∧ ∃ r t,
      handle Example.ext Example.Event
        [("X-Github-Event", JStr "status"); ("X-Github-Hook-Installation-Target-Id", JStr "2")]
        [("installation", JObj [("id", JInt 3)])]
        (add_handler Example.CheckSuiteEvent Example.method world0).2
      = (r, add_trace (add_handler Example.CheckSuiteEvent Example.method world0).2 t)
      ∧ r = Ok tt.
Proof.
  split; [reflexivity|].
  destruct (handle_without_handlers Example.ext Example.Event
              [("X-Github-Event", JStr "status");
               ("X-Github-Hook-Installation-Target-Id", JStr "2")]
              [("installation", JObj [("id", JInt 3)])]
              (add_handler Example.CheckSuiteEvent Example.method world0).2
              Example.StatusEvent)
    as (r & t & Hrun & _ & _ & Hok).
  - reflexivity.
  - reflexivity.
  - exists r, t. split; [exact Hrun|].
    apply (Hok 2%Z 3%Z); reflexivity.
Defined.

(** X11.  A delivery that is classified as a class with subclasses reaches
    no handler: in a hierarchy of distinct classes whose registry is keyed by
    leaves, as registrations leave it, [handle] then constructs no event and
    calls nothing, whatever was registered against that class. *)
Theorem handle_inner_class_dispatches_nothing (ext : externals) (Event : event_class)
    (headers body : dict) (w : world) (P : event_class) :
  NoDup (classes Event) →
  keyed_by_leaves Event w →
  get_event Event headers body = Ok P →
  subclasses P ≠ [] →
  ∃ r t,
    handle ext Event headers body w = (r, add_trace w t)
    ∧ calls t = []
    ∧ count is_New t = 0.
Proof.
  intros Hnd Hkeys Hg HP.
  destruct (get_event_chain Event headers body P Hg) as [path Hc].
  pose proof (inner_class_not_leaf Event path P Hc Hnd HP) as Hnot.
  assert (Hnone : handlers w !! cls_name P = None).
  { destruct (handlers w !! cls_name P) eqn:Hk; [|done].
    exfalso. apply Hnot, Hkeys. by rewrite Hk. }
  destruct (handle_unregistered ext Event headers body w P Hg) as (r & t & Hrun & Hc' & Hn & _).
  { by rewrite Hnone. }
  by exists r, t.
Qed.

Lemma handle_inner_class_dispatches_nothing_witness :
  get_event Example.Event Example.headers
    [("action", JStr "created"); ("installation", JObj [("id", JInt 3)])]
  = Ok Example.CheckSuiteEvent
  ∧ ∃ r t,
      handle Example.ext Example.Event Example.headers
        [("action", JStr "created"); ("installation", JObj [("id", JInt 3)])]
        (add_handler Example.CheckSuiteEvent Example.method world0).2
      = (r, add_trace (add_handler Example.CheckSuiteEvent Example.method world0).2 t)
      ∧ calls t = []
      ∧ count is_New t = 0.
Proof.
  split; [reflexivity|].
  apply (handle_inner_class_dispatches_nothing Example.ext Example.Event Example.headers
           [("action", JStr "created"); ("installation", JObj [("id", JInt 3)])]
           (add_handler Example.CheckSuiteEvent Example.method world0).2
           Example.CheckSuiteEvent).
  - by_decide.
  - apply (add_handler_keyed_by_leaves Example.Event
             [Example.Event; Example.CheckSuiteEvent]).
    + apply (chain_step _ Example.CheckSuiteEvent); [by left|constructor].
    + intros k [x Hx]. done.
  - reflexivity.
  - discriminate.
Defined.

(** ** [handle]: exceptions *)

Lemma dispatch_outcome_raises ev hs1 h hs2 e : ∀ n,
  Forall returns hs1 →
  (∀ x, call h x = Raise e) →
  dispatch_outcome ev (hs1 ++ h :: hs2) n = (Raise e, S (length hs1)).
Proof.
  induction hs1 as [|h1 hs1 IH]; intros n Hr He.
  - cbn [app dispatch_outcome length]. by rewrite He.
  - apply Forall_cons in Hr as [Hh Hr]. cbn [app dispatch_outcome length].
    by rewrite Hh, IH.
Qed.

(** X12.  The loop fails fast: on a deliverable delivery, when the handlers
    registered before [h] return and [h] raises, [handle] raises that
    exception; the handlers up to [h] have been called, in order, each on an
    instance of its own, and none of those registered after [h] is called. *)
Theorem handle_stops_at_first_exception (ext : externals) (Event : event_class)
    (headers body : dict) (w : world) (cls : event_class)
    (hs1 : list handler) (h : handler) (hs2 : list handler) (e : exn) :
  get_event Event headers body = Ok cls →
  deliverable ext cls headers body = true →
  default [] (handlers w !! cls_name cls) = hs1 ++ h :: hs2 →
  Forall returns hs1 →
  (∀ ev, call h ev = Raise e) →
  (handle ext Event headers body w).1 = Raise e
  ∧ (calls (effects_of (handle ext Event headers body) w)).*1 = hs1 ++ [h]
  ∧ count is_New (effects_of (handle ext Event headers body) w) = S (length hs1).
Proof.
  intros Hg Hd Hhs Hret He.
  destruct (handle_outcome ext Event headers body w cls Hg Hd)
    as (app_id & installation_id & auth & _ & _ & Hrun).
  rewrite Hhs, (dispatch_outcome_raises _ hs1 h hs2 e) in Hrun by done.
  cbn [fst snd] in Hrun.
  assert (Htake : take (S (length hs1)) (hs1 ++ h :: hs2) = hs1 ++ [h]).
  { rewrite (cons_middle h hs1 hs2), app_assoc. apply take_app_length'.
    rewrite length_app. cbn. lia. }
  rewrite Htake in Hrun.
  rewrite (effects_of_extends _ _ _ (f_equal (λ p, trace p.2) Hrun)).
  split; [by rewrite Hrun|]. split.
  - by rewrite calls_app, calls_auth_effects, app_nil_l, calls_dispatch_trace_handlers.
  - rewrite count_app, count_New_auth_effects, count_dispatch_trace_New, length_app.
    cbn. lia.
Qed.

Lemma handle_stops_at_first_exception_witness :
  let w := (add_handlers [(Example.Event, Example.method); (Example.Event, Example.failing);
                          (Example.Event, Example.other)] world0).2 in
  (handle Example.ext Example.Event Example.headers Example.body w).1
  = Raise (UserError "handler failed")
  ∧ (calls (effects_of (handle Example.ext Example.Event Example.headers Example.body) w)).*1
    = [Example.method; Example.failing].
Proof.
  intros w.
  destruct (handle_stops_at_first_exception Example.ext Example.Event Example.headers
              Example.body w Example.CheckSuiteCompletedEvent
              [Example.method] Example.failing [Example.other]
              (UserError "handler failed"))
    as (Hr & Hcalls & _).
  - reflexivity.
  - reflexivity.
  - reflexivity.
  - constructor; [|constructor]. intros ev. reflexivity.
  - intros ev. reflexivity.
  - split; [exact Hr|exact Hcalls].
Defined.

(** X13.  A delivery without the installation-target header, or without an
    ["installation"] in its body, makes [handle] raise [KeyError] once it is
    classified, before any credential is requested, any event constructed or
    any handler called, also when no handler is registered; the process state
    is as before. *)
Theorem handle_missing_identifiers (ext : externals) (Event : event_class)
    (headers body : dict) (w : world) (cls : event_class) :
  get_event Event headers body = Ok cls →
  (dict_get headers "X-Github-Hook-Installation-Target-Id" = None →
     handle ext Event headers body w
     = (Raise (KeyError "X-Github-Hook-Installation-Target-Id"), w))
  ∧ (∀ app_id,
       subscript headers "X-Github-Hook-Installation-Target-Id" ≫= int ext = Ok app_id →
       dict_get body "installation" = None →
       handle ext Event headers body w = (Raise (KeyError "installation"), w))
  ∧ (∀ app_id installation,
       subscript headers "X-Github-Hook-Installation-Target-Id" ≫= int ext = Ok app_id →
       dict_get body "installation" = Some (JObj installation) →
       dict_get installation "id" = None →
       handle ext Event headers body w = (Raise (KeyError "id"), w)).
Proof.
  intros Hg. rewrite handle_run, Hg. split; [|split].
  - intros Hh. unfold subscript at 1. by rewrite Hh.
  - intros app_id -> Hb. unfold subscript at 1. by rewrite Hb.
  - intros app_id installation -> Hb Hi. unfold subscript at 1. rewrite Hb.
    cbn. unfold subscript. by rewrite Hi.
Qed.

Lemma handle_missing_identifiers_witness :
  handle Example.ext Example.Event Example.headers [("action", JStr "completed")] world0
  = (Raise (KeyError "installation"), world0)
  ∧ handle Example.ext Example.Event [("X-Github-Event", JStr "status")] Example.body world0
    = (Raise (KeyError "X-Github-Hook-Installation-Target-Id"), world0)
  ∧ handle Example.ext Example.Event Example.headers
      [("action", JStr "completed"); ("installation", JObj [])] world0
    = (Raise (KeyError "id"), world0).
Proof.
  split; [|split].
  - apply (proj1 (proj2 (handle_missing_identifiers Example.ext Example.Event Example.headers
                           [("action", JStr "completed")] world0
                           Example.CheckSuiteCompletedEvent eq_refl)) 2%Z);
      reflexivity.
  - apply (proj1 (handle_missing_identifiers Example.ext Example.Event
                    [("X-Github-Event", JStr "status")] Example.body world0
                    Example.StatusEvent eq_refl)).
    reflexivity.
  - apply (proj2 (proj2 (handle_missing_identifiers Example.ext Example.Event Example.headers
                           [("action", JStr "completed"); ("installation", JObj [])] world0
                           Example.CheckSuiteCompletedEvent eq_refl)) 2%Z []);
      reflexivity.
Defined.

(** X14.  When the token service refuses the installation token, [handle]
    raises its exception after that one request: no event is constructed and
    no handler called, whatever is registered. *)
Theorem handle_token_refused (ext : externals) (Event : event_class)
    (headers body : dict) (w : world) (cls : event_class)
    (app_id installation_id : Z) (key : string) (e : exn) :
  get_event Event headers body = Ok cls →
  subscript headers "X-Github-Hook-Installation-Target-Id" ≫= int ext = Ok app_id →
  (installation ← subscript body "installation";
   subscript_json installation "id" ≫= int ext) = Ok installation_id →
  truthy (environ ext "CLIENT_ID") = false →
  private_key ext = Ok key →
  get_access_token ext (Some app_id) key (Some installation_id) = Raise e →
  handle ext Event headers body w
  = (Raise e, add_trace w [GetAccessToken (Some app_id) (Some installation_id)]).
Proof.
  intros Hg Ha Hi Hid Hkey Htoken. rewrite handle_run, Hg, Ha, Hi.
  unfold _get_auth. rewrite Hid, run_lift, Hkey. unfold emit.
  rewrite run_modify, run_lift, Htoken. done.
Qed.

Lemma handle_token_refused_witness :
  handle Example.ext_refused Example.Event Example.headers Example.body
    (add_handler Example.Event Example.method world0).2
  = (Raise (UserError "401 Bad credentials"),
     add_trace (add_handler Example.Event Example.method world0).2
       [GetAccessToken (Some 2%Z) (Some 3%Z)]).
Proof.
  apply (handle_token_refused Example.ext_refused Example.Event Example.headers Example.body
           _ Example.CheckSuiteCompletedEvent 2%Z 3%Z "key"); reflexivity.
Defined.

(** ** The constructor of an event on a payload it does not accept *)

Lemma find_none_forallb (p : string → bool) l :
  List.find (λ x, negb (p x)) l = None → forallb p l = true.
Proof.
  induction l as [|x l IH]; [done|]. cbn [forallb List.find].
  destruct (p x); [apply IH|done].
Qed.

Lemma construct_missing_field ext cls gh requester headers body w :
  existsb (dict_has body) ["gh"; "requester"; "headers"; "self"] = false →
  forallb (dict_has body) (init_params cls) = false
  ∨ dict_has (passed_on cls body) "sender" = false →
  ∃ msg,
    construct ext cls gh requester headers body w
    = (Raise (TypeError msg),
       mkWorld (handlers w) (Event_attrs w) (S (allocated w))
         (trace w ++ [New (cls_name cls) (allocated w)])).
Proof.
  intros Hclash Hmissing.
  cbn [existsb] in Hclash. rewrite !orb_false_iff in Hclash.
  destruct Hclash as (Hgh & Hrq & Hhd & Hself & _).
  unfold construct. cbn [existsb]. rewrite Hgh, Hrq, Hhd. cbn [orb].
  rewrite bind_run. cbn [new]. rewrite Hself.
  destruct (List.find _ (init_params cls)) as [p|] eqn:Hfind; [by eexists|].
  apply find_none_forallb in Hfind.
  destruct Hmissing as [Hparams|Hsender]; [congruence|].
  unfold Event__init__. unfold dict_has, passed_on in Hsender.
  destruct (dict_get _ "sender"); [done|]. by eexists.
Qed.

(** X15.  A payload that lacks a field which the constructor of the matched
    class requires (one of its own parameters, or ["sender"]) makes [handle]
    raise [TypeError] at the first handler: no handler is called, and no
    class attribute of [Event] is assigned. *)
Theorem handle_rejects_incomplete_payload (ext : externals) (Event : event_class)
    (headers body : dict) (w : world) (cls : event_class) (app_id installation_id : Z) :
  get_event Event headers body = Ok cls →
  subscript headers "X-Github-Hook-Installation-Target-Id" ≫= int ext = Ok app_id →
  (installation ← subscript body "installation";
   subscript_json installation "id" ≫= int ext) = Ok installation_id →
  authenticates ext (Some app_id) (Some installation_id) = true →
  default [] (handlers w !! cls_name cls) ≠ [] →
  existsb (dict_has body) ["gh"; "requester"; "headers"; "self"] = false →
  forallb (dict_has body) (init_params cls) = false
  ∨ dict_has (passed_on cls body) "sender" = false →
  ∃ msg,
    (handle ext Event headers body w).1 = Raise (TypeError msg)
    ∧ calls (effects_of (handle ext Event headers body) w) = []
    ∧ Event_attrs (handle ext Event headers body w).2 = Event_attrs w.
Proof.
  intros Hg Ha Hi Hauth Hhs Hclash Hmissing.
  destruct (_get_auth_run ext (Some app_id) (Some installation_id)) as (r & Hr & Hok).
  destruct (Hok Hauth) as [auth ->].
  destruct (construct_missing_field ext cls (mkGithub auth) (mkRequester auth) headers body
              (add_trace w (auth_effects ext (Some app_id) (Some installation_id)))
              Hclash Hmissing) as [msg Hc].
  assert (Hrun : ∃ n, handle ext Event headers body w
            = (Raise (TypeError msg),
               mkWorld (handlers w) (Event_attrs w) n
                 (trace w ++ auth_effects ext (Some app_id) (Some installation_id)
                  ++ [New (cls_name cls) (allocated w)]))).
  { rewrite handle_run, Hg, Ha, Hi, Hr. cbn [add_trace handlers].
    destruct (default [] (handlers w !! cls_name cls)) as [|h hs]; [done|].
    cbn [for_each]. rewrite bind_run. unfold invoke. rewrite bind_run, Hc.
    cbn [add_trace handlers Event_attrs allocated trace]. rewrite <- app_assoc. by eexists. }
  destruct Hrun as [n Hrun]. exists msg.
  rewrite (effects_of_extends _ _ _ (f_equal (λ p, trace p.2) Hrun)), Hrun.
  split; [done|]. split; [|done].
  by rewrite calls_app, calls_auth_effects.
Qed.

Lemma handle_rejects_incomplete_payload_witness :
  ∃ msg,
    (handle Example.ext Example.Event
       [("X-Github-Event", JStr "status"); ("X-Github-Hook-Installation-Target-Id", JStr "2")]
       [("installation", JObj [("id", JInt 3)]); ("sender", JObj [])]
       (add_handler Example.StatusEvent Example.method world0).2).1
    = Raise (TypeError msg).
Proof.
  destruct (handle_rejects_incomplete_payload Example.ext Example.Event
              [("X-Github-Event", JStr "status");
               ("X-Github-Hook-Installation-Target-Id", JStr "2")]
              [("installation", JObj [("id", JInt 3)]); ("sender", JObj [])]
              (add_handler Example.StatusEvent Example.method world0).2
              Example.StatusEvent 2%Z 3%Z) as (msg & Hr & _).
  - reflexivity.
  - reflexivity.
  - reflexivity.
  - reflexivity.
  - discriminate.
  - reflexivity.
  - left. reflexivity.
  - by exists msg.
Defined.

(** X16.  [Event.__init__] assigns the class attributes one by one as it
    reads the headers: when ["X-Github-Delivery"] is there and
    ["X-Github-Event"] is not, construction raises [KeyError] after
    [Event.delivery] has taken the value of this delivery, and the other
    class attributes keep those of the previous one. *)
Theorem construct_assigns_before_failing (ext : externals) (cls : event_class)
    (gh : Github) (requester : Requester) (headers body : dict) (w : world) (d : json) :
  existsb (dict_has body) ["gh"; "requester"; "headers"; "self"] = false →
  forallb (dict_has body) (init_params cls) = true →
  dict_has (passed_on cls body) "sender" = true →
  dict_get headers "X-Github-Delivery" = Some d →
  dict_get headers "X-Github-Event" = None →
  construct ext cls gh requester headers body w
  = (Raise (KeyError "X-Github-Event"),
     mkWorld (handlers w) (<["delivery" := d]> (Event_attrs w)) (S (allocated w))
       (trace w ++ [New (cls_name cls) (allocated w)])).
Proof.
  intros Hclash Hparams Hsender Hd He.
  cbn [existsb] in Hclash. rewrite !orb_false_iff in Hclash.
  destruct Hclash as (Hgh & Hrq & Hhd & Hself & _).
  apply dict_has_true in Hsender as [sender Hsender]. unfold passed_on in Hsender.
  unfold construct. cbn [existsb]. rewrite Hgh, Hrq, Hhd. cbn [orb].
  rewrite bind_run. cbn [new]. rewrite Hself, find_missing_none by done.
  rewrite bind_run.
  unfold Event__init__, setattr_Event. rewrite Hsender.
  rewrite run_lift. unfold subscript at 1. rewrite Hd.
  rewrite run_modify, run_lift. unfold subscript at 1. rewrite He. done.
Qed.

Lemma construct_assigns_before_failing_witness :
  construct Example.ext Example.CheckSuiteCompletedEvent
    (mkGithub (Token "t")) (mkRequester (Token "t"))
    [("X-Github-Delivery", JStr "next")] [("check_suite", JObj []); ("sender", JObj [])]
    (mkWorld ∅ (<["delivery" := JStr "previous"]> Event_attrs0) 0 [])
  = (Raise (KeyError "X-Github-Event"),
     mkWorld ∅ (<["delivery" := JStr "next"]> (<["delivery" := JStr "previous"]> Event_attrs0))
       1 [New "CheckSuiteCompletedEvent" 0]).
Proof.
  exact (construct_assigns_before_failing Example.ext Example.CheckSuiteCompletedEvent
           (mkGithub (Token "t")) (mkRequester (Token "t"))
           [("X-Github-Delivery", JStr "next")]
           [("check_suite", JObj []); ("sender", JObj [])]
           (mkWorld ∅ (<["delivery" := JStr "previous"]> Event_attrs0) 0 [])
           (JStr "next") eq_refl eq_refl eq_refl eq_refl eq_refl).
Defined.

(** ** The constructor of an event on a payload whose objects do not parse *)

Lemma _parse_object_Ok ext requester clazz value o :
  _parse_object ext requester clazz value = Ok o → parses ext clazz value = true.
Proof.
  unfold _parse_object, parses. by destruct (GithubObject__init__ ext clazz value).
Qed.

Lemma comprehension_Ok ext requester clazz items : ∀ os,
  comprehension (_parse_object ext requester clazz) items = Ok os →
  forallb (parses ext clazz) items = true.
Proof.
  induction items as [|v items IH]; intros os; [done|]. cbn [comprehension forallb].
  destruct (_parse_object ext requester clazz v) as [o|e] eqn:Hv; [|done].
  apply _parse_object_Ok in Hv as ->. cbn [mbind result_bind andb].
  destruct (comprehension _ items) as [os'|e]; [|done]. intros _. by eapply IH.
Qed.

Lemma init_field_Ok ext requester u value a :
  init_field ext requester u value = Ok a → usable ext u value = true.
Proof.
  destruct u as [|clazz|clazz]; cbn [init_field usable]; [done| |].
  - destruct (_parse_object ext requester clazz value) as [o|e] eqn:Hv; [|done].
    intros _. by eapply _parse_object_Ok.
  - destruct (iter value) as [items|e]; [|done]. cbn [mbind result_bind].
    destruct (comprehension _ items) as [os|e] eqn:Hos; [|done].
    intros _. by eapply comprehension_Ok.
Qed.

Lemma init_body_Ok ext requester body init_fields : ∀ fields,
  init_body ext requester init_fields body = Ok fields →
  forallb (λ '(name, u), usable ext u (default JNull (dict_get body name))) init_fields = true.
Proof.
  unfold init_body.
  induction init_fields as [|[name u] l IH]; intros fields; [done|].
  cbn [comprehension forallb].
  destruct (init_field ext requester u _) as [a|e] eqn:Ha; [|done].
  apply init_field_Ok in Ha as ->. cbn [mbind result_bind andb].
  destruct (comprehension _ l) as [fields'|e]; [|done]. intros _. by eapply IH.
Qed.

(** The parsing returns only on a payload that the constructor accepts. *)
Lemma constructed_Ok ext cls gh requester headers body n ev :
  binds ext cls headers body = true →
  constructed ext cls gh requester body n = Ok ev →
  accepts ext cls headers body = true.
Proof.
  intros Hb. unfold constructed, accepts. rewrite Hb. cbn [andb].
  destruct (default JNull (dict_get (passed_on cls body) "repository"))
    as [|b|z|str|items|members];
    cbn [mbind result_bind];
    try match goal with
        | |- context [_parse_object ext requester "Repository" ?v] =>
            destruct (_parse_object ext requester "Repository" v) as [o|e] eqn:Ho; [|done];
            apply _parse_object_Ok in Ho as ->
        end;
    cbn [mbind result_bind andb];
    (destruct (_parse_object ext requester "NamedUser" _) as [o'|e] eqn:Ho'; [|done]);
    apply _parse_object_Ok in Ho' as ->; cbn [mbind result_bind andb];
    (destruct (init_body ext requester (init_fields cls) body) as [fields|e] eqn:Hf; [|done]);
    intros _; by eapply init_body_Ok.
Qed.

(** X23.  A payload that binds to the constructor but has an object that the
    library does not take, or a field to iterate over that is not iterable,
    makes [handle] raise at the first handler: one event has been allocated,
    no handler is called, and the class attributes of [Event] hold the values
    of this delivery all the same, since [Event.__init__] assigns them before
    it parses. *)
Theorem handle_rejects_unparsable_payload (ext : externals) (Event : event_class)
    (headers body : dict) (w : world) (cls : event_class) :
  get_event Event headers body = Ok cls →
  assigns ext cls headers body = true →
  accepts ext cls headers body = false →
  default [] (handlers w !! cls_name cls) ≠ [] →
  ∃ e app_id installation_id,
    (handle ext Event headers body w).1 = Raise e
    ∧ effects_of (handle ext Event headers body) w
      = auth_effects ext (Some app_id) (Some installation_id)
        ++ [New (cls_name cls) (allocated w)]
    ∧ calls (effects_of (handle ext Event headers body) w) = []
    ∧ Event_attrs (handle ext Event headers body w).2
      = Event_attrs_of ext cls headers body ∪ Event_attrs w.
Proof.
  intros Hg Hd Hacc Hhs.
  pose proof (handle_assigns ext Event headers body w cls Hg Hd Hhs) as Hattrs.
  unfold assigns in Hd.
  destruct (subscript headers _ ≫= int ext) as [app_id|e] eqn:Ha; [|done].
  destruct (subscript body "installation" ≫= _) as [installation_id|e] eqn:Hi; [|done].
  apply andb_true_iff in Hd as [Hauth Hb].
  destruct (_get_auth_run ext (Some app_id) (Some installation_id)) as (r & Hr & Hok).
  destruct (Hok Hauth) as [auth ->].
  assert (Hrun : ∃ e w', handle ext Event headers body w = (Raise e, w')
            ∧ trace w' = trace w ++ auth_effects ext (Some app_id) (Some installation_id)
                         ++ [New (cls_name cls) (allocated w)]).
  { rewrite handle_run, Hg, Ha, Hi, Hr. cbn [add_trace handlers].
    destruct (default [] (handlers w !! cls_name cls)) as [|h hs]; [done|].
    cbn [for_each]. rewrite bind_run. unfold invoke. rewrite bind_run, construct_binds by done.
    destruct (constructed ext cls _ _ body _) as [ev|e] eqn:Hc.
    - apply (constructed_Ok _ _ _ _ headers) in Hc; [congruence|done].
    - eexists _, _. split; [reflexivity|]. cbn [add_trace trace allocated]. by rewrite <- app_assoc. }
  destruct Hrun as (e & w' & Hrun & Ht).
  exists e, app_id, installation_id.
  assert (Heff : effects_of (handle ext Event headers body) w
            = auth_effects ext (Some app_id) (Some installation_id)
              ++ [New (cls_name cls) (allocated w)]).
  { apply effects_of_extends. by rewrite Hrun. }
  split; [by rewrite Hrun|]. split; [done|]. split; [|done].
  by rewrite Heff, calls_app, calls_auth_effects.
Qed.

Lemma handle_rejects_unparsable_payload_witness :
  let w := (add_handler Example.Event Example.method world0).2 in
  let body := [("action", JStr "completed"); ("check_suite", JObj []);
               ("installation", JObj [("id", JInt 3)]); ("sender", JInt 5)] in
  ∃ e,
    (handle Example.ext Example.Event Example.headers body w).1 = Raise e
    ∧ calls (effects_of (handle Example.ext Example.Event Example.headers body) w) = []
    ∧ Event_attrs (handle Example.ext Example.Event Example.headers body w).2 !! "delivery"
      = Some (JStr "a1b2c3d4").
Proof.
  intros w body.
  destruct (handle_rejects_unparsable_payload Example.ext Example.Event Example.headers
              body w Example.CheckSuiteCompletedEvent)
    as (e & app_id & installation_id & Hr & _ & Hcalls & Hattrs).
  - reflexivity.
  - reflexivity.
  - reflexivity.
  - discriminate.
  - exists e. split; [exact Hr|]. split; [exact Hcalls|].
    rewrite Hattrs. reflexivity.
Defined.

(** ** The lazy requester: how the first read ends *)

Lemma getattr_first_run ext fuel item self w :
  _initialized self = false →
  lookup_attr ext self item = None →
  getattr ext (S (S fuel)) item (self, w)
  = match initialize ext (mkLazyRequester true (requester_dict self), w) with
    | (Ok _, s') => getattr ext (S fuel) item s'
    | (Raise e, s') => (Raise e, s')
    end.
Proof.
  intros Hi Hl. cbn [getattr]. rewrite run_gets. cbn [fst]. rewrite Hl, Hi. cbn [negb].
  rewrite bind_run. cbn [on_self modify]. rewrite bind_run.
  by destruct (initialize ext _) as [[[]|e] s'].
Qed.

Lemma initialize_keeps_flag ext self w r s' :
  initialize ext (self, w) = (r, s') → _initialized s'.1 = _initialized self.
Proof.
  destruct (initialize_run ext self w) as (r' & attrs & t & -> & _).
  by intros [= _ <-].
Qed.

(** X17.  A failed initialization is not tried again: when [initialize]
    raises, the first read of a missing attribute raises the same exception
    and the flag stays set, so every later read of an attribute that ordinary
    lookup does not find raises [AttributeError] and does nothing else. *)
Theorem lazy_requester_failed_initialize (ext : externals) (fuel : nat) (item : string)
    (self : LazyRequester) (w : world) (e : exn) (s' : LazyRequester * world) :
  _initialized self = false →
  lookup_attr ext self item = None →
  initialize ext (mkLazyRequester true (requester_dict self), w) = (Raise e, s') →
  getattr ext (S (S fuel)) item (self, w) = (Raise e, s')
  ∧ _initialized s'.1 = true
  ∧ (∀ fuel' item',
       lookup_attr ext s'.1 item' = None →
       getattr ext (S fuel') item' s'
       = (Raise (AttributeError
                   ("'LazyRequester' object has no attribute '" +:+ item' +:+ "'")),
          s')).
Proof.
  intros Hi Hl Hinit.
  pose proof (initialize_keeps_flag _ _ _ _ _ Hinit) as Hflag. cbn in Hflag.
  split; [by rewrite getattr_first_run, Hinit|]. split; [done|].
  intros fuel' item' Hl'. destruct s' as [self' w']. by apply getattr_missing.
Qed.

Lemma lazy_requester_failed_initialize_witness :
  ∃ s',
    getattr Example.ext_refused 2 "requestJsonAndCheck" (LazyRequester__init__, world0)
    = (Raise (UserError "401 Bad credentials"), s')
    ∧ getattr Example.ext_refused 1 "requestJsonAndCheck" s'
      = (Raise (AttributeError "'LazyRequester' object has no attribute 'requestJsonAndCheck'"),
         s').
Proof.
  eexists.
  pose proof (lazy_requester_failed_initialize Example.ext_refused 0 "requestJsonAndCheck"
                LazyRequester__init__ world0 (UserError "401 Bad credentials") _
                eq_refl eq_refl eq_refl) as (Hfirst & _ & Hlater).
  split; [exact Hfirst|].
  apply (Hlater 0 "requestJsonAndCheck"). reflexivity.
Defined.

(** X18.  After a successful initialization the requester serves what
    [Requester.__init__] stored: the read that triggered it returns the
    attribute if it is there now (and raises [AttributeError] if it is
    not), and reading an attribute again returns the same value without
    changing the requester or the process state. *)
Theorem lazy_requester_serves_after_initialize (ext : externals) (fuel : nat) (item : string)
    (self : LazyRequester) (w : world) (s' : LazyRequester * world) :
  _initialized self = false →
  lookup_attr ext self item = None →
  initialize ext (mkLazyRequester true (requester_dict self), w) = (Ok tt, s') →
  getattr ext (S (S fuel)) item (self, w)
  = (match lookup_attr ext s'.1 item with
     | Some v => Ok v
     | None => Raise (AttributeError
                        ("'LazyRequester' object has no attribute '" +:+ item +:+ "'"))
     end, s')
  ∧ (∀ fuel' item' v,
       lookup_attr ext s'.1 item' = Some v →
       getattr ext (S fuel') item' s' = (Ok v, s')).
Proof.
  intros Hi Hl Hinit.
  pose proof (initialize_keeps_flag _ _ _ _ _ Hinit) as Hflag. cbn in Hflag.
  destruct s' as [self' w']. cbn [fst] in *. split.
  - rewrite getattr_first_run, Hinit by done.
    destruct (lookup_attr ext self' item) as [v|] eqn:Hl'.
    + by apply getattr_found.
    + by apply getattr_missing.
  - intros fuel' item' v. apply getattr_found.
Qed.

Lemma lazy_requester_serves_after_initialize_witness :
  ∃ s',
    getattr Example.ext 2 "_Requester__base_url" (LazyRequester__init__, world0)
    = (Ok (JStr "https://api.github.com"), s')
    ∧ getattr Example.ext 1 "_Requester__base_url" s'
      = (Ok (JStr "https://api.github.com"), s').
Proof.
  eexists.
  pose proof (lazy_requester_serves_after_initialize Example.ext 0 "_Requester__base_url"
                LazyRequester__init__ world0 _ eq_refl eq_refl eq_refl) as (Hfirst & Hagain).
  split; [exact Hfirst|].
  apply (Hagain 0 "_Requester__base_url"). reflexivity.
Defined.

Lemma initialize_token_flow ext self w key :
  truthy (environ ext "CLIENT_ID") = false →
  private_key ext = Ok key →
  ∃ r attrs,
    initialize ext (self, w)
    = (r, (mkLazyRequester (_initialized self) attrs,
           add_trace w [Initialize;
                        GetAccessToken (Event_attr_int w "hook_installation_target_id")
                          (Event_attr_int w "installation_id")])).
Proof.
  intros Hid Hkey. unfold initialize. cbv zeta.
  rewrite run_on_world_emit, bind_run, Hid, run_lift, Hkey.
  rewrite run_on_world_gets, run_on_world_gets, run_on_world_emit, run_lift.
  rewrite add_trace_add_trace. cbn [add_trace Event_attr_int Event_attrs app].
  destruct (get_access_token ext _ key _) as [token|e].
  - eexists _, _. reflexivity.
  - exists (Raise e), (requester_dict self). by destruct self.
Qed.

(** X19.  The lazy requester takes its identifiers from the class attributes
    of [Event]: after [handle] has dispatched a delivery (one that reaches
    the loop and binds to the constructor of its class, with a handler
    registered), the token request of a requester that initializes carries
    the installation target of that delivery, and for the installation the
    value that [Event.installation_id] had before, since [handle] and
    [Event.__init__] never assign it. *)
Theorem lazy_requester_reads_Event_attributes (ext : externals) (Event : event_class)
    (headers body : dict) (w : world) (cls : event_class) (app_id : Z) (key : string)
    (fuel : nat) (item : string) :
  get_event Event headers body = Ok cls →
  assigns ext cls headers body = true →
  default [] (handlers w !! cls_name cls) ≠ [] →
  subscript headers "X-Github-Hook-Installation-Target-Id" ≫= int ext = Ok app_id →
  truthy (environ ext "CLIENT_ID") = false →
  private_key ext = Ok key →
  lookup_attr ext LazyRequester__init__ item = None →
  (getattr ext (S (S fuel)) item
     (LazyRequester__init__, (handle ext Event headers body w).2)).2.2
  = add_trace (handle ext Event headers body w).2
      [Initialize; GetAccessToken (Some app_id) (Event_attr_int w "installation_id")].
Proof.
  intros Hg Hd Hhs Ha Hid Hkey Hl.
  pose proof (handle_assigns ext Event headers body w cls Hg Hd Hhs) as Hattrs.
  set (w' := (handle ext Event headers body w).2) in *.
  assert (Happ : Event_attr_int w' "hook_installation_target_id" = Some app_id).
  { unfold Event_attr_int. rewrite Hattrs.
    erewrite lookup_union_Some_l; [|reflexivity]. unfold from_Ok_int. by rewrite Ha. }
  assert (Hinst : Event_attr_int w' "installation_id" = Event_attr_int w "installation_id").
  { unfold Event_attr_int. rewrite Hattrs. by rewrite lookup_union_r. }
  rewrite getattr_first_run by done.
  destruct (initialize_token_flow ext (mkLazyRequester true ∅) w' key Hid Hkey)
    as (r' & attrs & Hinit).
  cbn [LazyRequester__init__ requester_dict]. rewrite Hinit, Happ, Hinst.
  destruct r' as [[]|e]; [|done].
  by rewrite getattr_initialized.
Qed.

Lemma lazy_requester_reads_Event_attributes_witness :
  let w := (add_handler Example.Event Example.method world0).2 in
  (getattr Example.ext 2 "nope"
     (LazyRequester__init__, (handle Example.ext Example.Event Example.headers Example.body
                                w).2)).2.2
  = add_trace (handle Example.ext Example.Event Example.headers Example.body w).2
      [Initialize; GetAccessToken (Some 2%Z) None].
Proof.
  intros w.
  apply (lazy_requester_reads_Event_attributes Example.ext Example.Event Example.headers
           Example.body w Example.CheckSuiteCompletedEvent 2%Z "key" 0 "nope").
  - reflexivity.
  - reflexivity.
  - discriminate.
  - reflexivity.
  - reflexivity.
  - reflexivity.
  - reflexivity.
Defined.

(** ** Sequences of registrations, and the decorator *)

(** X20.  The registry records the registrations in their order: after a
    sequence of registrations of handlers with one parameter, the list of a
    class is the list it was, followed by the handlers of those
    registrations whose class has it among its leaves, in the order in which
    they were made. *)
Theorem add_handlers_in_order (registrations : list (event_class * handler)) (w : world) :
  Forall (λ registration,
            length (parameters registration.2) = 1 ∧ NoDup (classes registration.1))
         registrations →
  (add_handlers registrations w).1 = Ok tt
  ∧ ∀ L, default [] (handlers (add_handlers registrations w).2 !! L)
         = default [] (handlers w !! L)
           ++ (List.filter (λ registration, bool_decide (L ∈ leaves registration.1))
                 registrations).*2.
Proof.
  unfold add_handlers. revert w.
  induction registrations as [|[event method] regs IH]; intros w Hregs.
  - split; [done|]. intros L. cbn. by rewrite app_nil_r.
  - apply Forall_cons in Hregs as [[Hsig Hnd] Hregs]. cbn [fst snd] in Hsig, Hnd.
    cbn [for_each]. rewrite bind_run. cbn [fst snd].
    rewrite add_handler_registers by done.
    destruct (IH (registered (leaves event) method w) Hregs) as [Hok Hlists].
    split; [done|]. intros L. rewrite Hlists. cbn [List.filter fst].
    destruct (decide (L ∈ leaves event)) as [Hin|Hnin].
    + rewrite bool_decide_eq_true_2 by done.
      rewrite registered_lookup_in by (try apply leaves_NoDup; done).
      cbn. by rewrite <- app_assoc.
    + rewrite bool_decide_eq_false_2 by done.
      by rewrite registered_lookup_notin.
Qed.

Lemma add_handlers_in_order_witness :
  default []
    (handlers (add_handlers [(Example.Event, Example.method);
                             (Example.StatusEvent, Example.failing);
                             (Example.CheckSuiteCompletedEvent, Example.other)] world0).2
       !! "CheckSuiteCompletedEvent")
  = default [] (handlers world0 !! "CheckSuiteCompletedEvent")
    ++ [Example.method; Example.other].
Proof.
  apply (proj2 (add_handlers_in_order
                  [(Example.Event, Example.method); (Example.StatusEvent, Example.failing);
                   (Example.CheckSuiteCompletedEvent, Example.other)] world0
                  ltac:(repeat constructor; by_decide))
           "CheckSuiteCompletedEvent").
Defined.

(** X21.  The decorator returns the function it was given, so decorators
    stack: a handler with one parameter decorated for [B] and then for [A]
    is registered under the leaves of [B] and then under those of [A], and is
    still the same function; with any other number of parameters the first
    decoration raises [SignatureError] and registers nothing. *)
Theorem webhook_handler_stacks (A B : event_class) (method : handler) (w : world) :
  (length (parameters method) = 1 →
     (webhook_handler B method ≫= webhook_handler A) w
     = (Ok method, registered (leaves A) method (registered (leaves B) method w)))
  ∧ (length (parameters method) ≠ 1 →
     ∃ message,
       (webhook_handler B method ≫= webhook_handler A) w = (Raise (SignatureError message), w)).
Proof.
  split; intros Hn.
  - rewrite bind_run. unfold webhook_handler at 1.
    rewrite bind_run, add_handler_registers by done.
    unfold mret at 1, M_ret at 1. unfold webhook_handler.
    rewrite bind_run, add_handler_registers by done. done.
  - rewrite bind_run. unfold webhook_handler at 1.
    rewrite bind_run, add_handler_rejects by done.
    unfold lift. rewrite _validate_signature_error by done. by eexists.
Qed.

Lemma webhook_handler_stacks_witness :
  (webhook_handler Example.StatusEvent Example.method
   ≫= webhook_handler Example.CheckSuiteEvent) world0
  = (Ok Example.method,
     registered (leaves Example.CheckSuiteEvent) Example.method
       (registered (leaves Example.StatusEvent) Example.method world0))
  ∧ ∃ message,
      (webhook_handler Example.StatusEvent Example.no_args
       ≫= webhook_handler Example.CheckSuiteEvent) world0
      = (Raise (SignatureError message), world0).
Proof.
  split.
  - apply (proj1 (webhook_handler_stacks Example.CheckSuiteEvent Example.StatusEvent
                    Example.method world0)).
    reflexivity.
  - apply (proj2 (webhook_handler_stacks Example.CheckSuiteEvent Example.StatusEvent
                    Example.no_args world0)).
    vm_compute. lia.
Defined.

(** ** [check_suite.py] *)

(** X22.  Below [CheckSuiteEvent] a delivery is classified by the string
    under its normalized ["action"] key alone: ["completed"], ["requested"]
    and ["rerequested"] select the three subclasses, and any other action,
    or none, leaves [CheckSuiteEvent] itself. *)
Theorem check_suite_classified_by_action (headers body : dict) :
  get_event Example.CheckSuiteEvent headers body
  = Ok (match normalize_dicts [headers; body] !! "action" with
        | Some (JStr action) =>
            if String.eqb "completed" action then Example.CheckSuiteCompletedEvent
            else if String.eqb "requested" action then Example.CheckSuiteRequestedEvent
            else if String.eqb "rerequested" action then Example.CheckSuiteRerequestedEvent
            else Example.CheckSuiteEvent
        | _ => Example.CheckSuiteEvent
        end).
Proof.
  rewrite get_event_loop.
  cbn [subclasses Example.CheckSuiteEvent for_event].
  unfold match_.
  cbn [event_identifier Example.CheckSuiteCompletedEvent Example.CheckSuiteRequestedEvent
       Example.CheckSuiteRerequestedEvent forallb andb].
  destruct (normalize_dicts [headers; body] !! "action") as [[| | |action| |]|];
    try reflexivity.
  rewrite !andb_true_r.
  destruct (String.eqb "completed" action); [reflexivity|].
  destruct (String.eqb "requested" action); [reflexivity|].
  destruct (String.eqb "rerequested" action); reflexivity.
Qed.
